(** * git-tidy: a model of [main.go] and the properties of its specification

    The program is a linear pipeline: list the local branches, resolve a
    GitHub token, resolve the repository name from the [origin] remote, look
    up the pull request of every branch, and delete the branches whose pull
    request is merged.

    Go strings are byte sequences; they are modelled by [string], whose
    characters are the 256 values of [ascii].  A Go [(T, error)] result is a
    [result T]; an [error] is the text of its [Error()] method. *)

From Stdlib Require Import ZArith Ascii String List Bool Lia.
From stdpp Require Import base option strings gmap pretty.
Import ListNotations.

Local Open Scope string_scope.

(** ** Results and errors *)

Definition error := string.

Inductive result (A : Type) : Type :=
| OK (a : A)
| Err (e : error).

Arguments OK {A} a.
Arguments Err {A} e.

Definition is_ok {A} (r : result A) : bool :=
  match r with OK _ => true | Err _ => false end.

Definition is_err {A} (r : result A) : bool := negb (is_ok r).

(** ** The parts of package [strings] the program uses *)

Module strings.

(** [len(s)] *)
Definition len (s : string) : nat := String.length s.

Definition HasPrefix (s pre : string) : bool := String.prefix pre s.

Definition HasSuffix (s suffix : string) : bool :=
  (len suffix <=? len s)%nat
  && String.eqb (substring (len s - len suffix) (len suffix) s) suffix.

Definition TrimPrefix (s pre : string) : string :=
  if HasPrefix s pre then substring (len pre) (len s - len pre) s else s.

Definition TrimSuffix (s suffix : string) : string :=
  if HasSuffix s suffix then substring 0 (len s - len suffix) s else s.

(** [Cut(s, sep)] for a one-byte separator: the text before and after the
    first [sep], or [None] when [sep] does not occur. *)
Fixpoint CutByte (c : ascii) (s : string) : option (string * string) :=
  match s with
  | EmptyString => None
  | String a s' =>
      if Ascii.eqb a c then Some (EmptyString, s')
      else match CutByte c s' with
           | Some (l, r) => Some (String a l, r)
           | None => None
           end
  end.

(** [SplitN(s, sep, 2)] for a one-byte separator: at most two pieces, the
    second one being the unsplit remainder. *)
Definition SplitN2 (s : string) (sep : ascii) : list string :=
  match CutByte sep s with
  | Some (l, r) => [l; r]
  | None => [s]
  end.

(** *** [TrimSpace]

    [TrimSpace] removes the leading and trailing runs of code points with
    the Unicode White_Space property.  A white-space code point occurs in a
    Go string exactly as its UTF-8 encoding (an invalid or over-long
    sequence decodes to U+FFFD, which is not white space), so trimming is
    modelled on bytes: a string starts (ends) with a white-space code point
    exactly when it starts (ends) with one of the encodings below. *)

Definition byte (a : ascii) : N := N_of_ascii a.

(** The table [asciiSpace]: TAB, LF, VT, FF, CR and SPACE. *)
Definition asciiSpace (a : ascii) : bool :=
  match byte a with
  | 9 | 10 | 11 | 12 | 13 | 32 => true
  | _ => false
  end%N.

(** U+0085 and U+00A0. *)
Definition space2 (a b : ascii) : bool :=
  match byte a, byte b with
  | 194, 133 | 194, 160 => true
  | _, _ => false
  end%N.

(** U+1680, U+2000..U+200A, U+2028, U+2029, U+202F, U+205F and U+3000. *)
Definition space3 (a b c : ascii) : bool :=
  match byte a, byte b, byte c with
  | 225, 154, 128 => true
  | 226, 128, x => ((128 <=? x) && (x <=? 138)) || (x =? 168) || (x =? 169) || (x =? 175)
  | 226, 129, 159 => true
  | 227, 128, 128 => true
  | _, _, _ => false
  end%N.

Fixpoint TrimLeftSpace (s : string) : string :=
  match s with
  | EmptyString => s
  | String a s1 =>
      if asciiSpace a then TrimLeftSpace s1
      else match s1 with
           | EmptyString => s
           | String b s2 =>
               if space2 a b then TrimLeftSpace s2
               else match s2 with
                    | EmptyString => s
                    | String c s3 =>
                        if space3 a b c then TrimLeftSpace s3 else s
                    end
           end
  end.

Definition rev (s : string) : string :=
  string_of_list_ascii (List.rev (list_ascii_of_string s)).

(** The same scan from the end of the string; the encodings are read last
    byte first. *)
Fixpoint trimLeftSpaceRev (s : string) : string :=
  match s with
  | EmptyString => s
  | String a s1 =>
      if asciiSpace a then trimLeftSpaceRev s1
      else match s1 with
           | EmptyString => s
           | String b s2 =>
               if space2 b a then trimLeftSpaceRev s2
               else match s2 with
                    | EmptyString => s
                    | String c s3 =>
                        if space3 c b a then trimLeftSpaceRev s3 else s
                    end
           end
  end.

Definition TrimRightSpace (s : string) : string :=
  rev (trimLeftSpaceRev (rev s)).

Definition TrimSpace (s : string) : string :=
  TrimRightSpace (TrimLeftSpace s).

End strings.

(** ** [bufio.Scanner] with the default split function [ScanLines]

    A token is a line without its end-of-line marker (a line feed, with one
    carriage return before it dropped).  A final line without line feed is a
    token when it is not empty.  The scanner's buffer holds at most
    [MaxScanTokenSize] bytes: scanning stops with [ErrTooLong] at the first
    line that does not fit, after the tokens before it were delivered. *)

Module bufio.

Definition MaxScanTokenSize : nat := 64 * 1024.

Definition ErrTooLong : error := "bufio.Scanner: token too long".

(** [dropCR]: drop one trailing carriage return. *)
Fixpoint dropCR (line : string) : string :=
  match line with
  | EmptyString => EmptyString
  | String a EmptyString => if Ascii.eqb a "013" then EmptyString else line
  | String a rest => String a (dropCR rest)
  end.

(** The lines of the input as the split function sees them: the bytes
    before each line feed, and the bytes after the last one when there are
    any; [cur] is the (reversed) line read so far. *)
Fixpoint rawLines (s : string) (cur : list ascii) : list string :=
  match s with
  | EmptyString =>
      match cur with
      | [] => []
      | _ => [string_of_list_ascii (List.rev cur)]
      end
  | String a s' =>
      if Ascii.eqb a "010" then string_of_list_ascii (List.rev cur) :: rawLines s' []
      else rawLines s' (a :: cur)
  end.

(** The tokens delivered by successive calls of [Scan], and the value of
    [Err()] afterwards. *)
Fixpoint scanTokens (lines : list string) : list string * option error :=
  match lines with
  | [] => ([], None)
  | line :: rest =>
      if (MaxScanTokenSize <=? String.length line)%nat then ([], Some ErrTooLong)
      else let '(toks, e) := scanTokens rest in (dropCR line :: toks, e)
  end.

Definition Scan (input : string) : list string * option error :=
  scanTokens (rawLines input []).

End bufio.

(** ** Package [regexp]: a backtracking matcher

    [regexp] finds the match a backtracking search finds first: the leftmost
    start position, a greedy operator trying more repetitions first and a
    lazy one fewer.  The matcher is written in continuation-passing style:
    [k] receives the unread input and the captures, and answers [None] to ask
    for the next alternative.

    The expressions are matched on bytes.  For the pattern of this program it
    is the same as matching on code points: every boundary between two parts
    of the pattern is next to an ASCII byte or at the end of the text, and an
    ASCII byte is always a code point of its own. *)

Module regexp.

Inductive regex : Type :=
| Empty                               (** the empty expression *)
| Class (p : ascii -> bool)           (** one character of a class *)
| Cat (r1 r2 : regex)                 (** [r1 r2] *)
| Opt (greedy : bool) (r : regex)     (** [r?] and [r??] *)
| Star (greedy : bool) (r : regex)    (** [r*] and [r*?] *)
| Group (i : nat) (r : regex)         (** the capturing group number [i] *)
| EndText.                            (** [$] without the flag [m] *)

(** [r+] and [r+?] *)
Definition Plus (greedy : bool) (r : regex) : regex := Cat r (Star greedy r).

(** A literal text. *)
Fixpoint Lit (s : string) : regex :=
  match s with
  | EmptyString => Empty
  | String a s' => Cat (Class (Ascii.eqb a)) (Lit s')
  end.

(** The text of the capturing groups that took part in the match. *)
Abbreviation captures := (gmap nat string).

Definition orElse {R} (a : option R) (b : option R) : option R :=
  match a with Some x => Some x | None => b end.

(** The text read between the input [s] and the later input [s1]. *)
Definition consumed (s s1 : string) : string :=
  substring 0 (String.length s - String.length s1) s.

(** The repetition of [step], each time reading at least one byte (the
    pattern of this program repeats single characters); [fuel] is the length
    of the input, which bounds the number of repetitions. *)
Fixpoint loop {R}
    (step : string -> captures -> (string -> captures -> option R) -> option R)
    (greedy : bool) (k : string -> captures -> option R)
    (fuel : nat) (s : string) (c : captures) {struct fuel} : option R :=
  match fuel with
  | O => k s c
  | S fuel' =>
      let again :=
        step s c (fun s1 c1 =>
          if (String.length s1 <? String.length s)%nat
          then loop step greedy k fuel' s1 c1 else None) in
      if greedy then orElse again (k s c) else orElse (k s c) again
  end.

Fixpoint run {R} (r : regex) (s : string) (c : captures)
    (k : string -> captures -> option R) {struct r} : option R :=
  match r with
  | Empty => k s c
  | Class p =>
      match s with
      | String a s' => if p a then k s' c else None
      | EmptyString => None
      end
  | Cat r1 r2 => run r1 s c (fun s1 c1 => run r2 s1 c1 k)
  | Opt true r1 => orElse (run r1 s c k) (k s c)
  | Opt false r1 => orElse (k s c) (run r1 s c k)
  | Star greedy r1 => loop (run r1) greedy k (String.length s) s c
  | Group i r1 => run r1 s c (fun s1 c1 => k s1 (<[i := consumed s s1]> c1))
  | EndText =>
      match s with
      | EmptyString => k s c
      | String _ _ => None
      end
  end.

(** A match starting at the first byte of [s]. *)
Definition matchHere (r : regex) (s : string) : option captures :=
  run r s ∅ (fun _ c => Some c).

(** The leftmost match in [s]. *)
Fixpoint find (r : regex) (s : string) : option captures :=
  match matchHere r s with
  | Some c => Some c
  | None =>
      match s with
      | EmptyString => None
      | String _ s' => find r s'
      end
  end.

(** [matches[i]] of [FindStringSubmatch]: the text of group [i], empty when
    the group took no part. *)
Definition submatch (c : captures) (i : nat) : string :=
  default EmptyString (c !! i).

End regexp.

(** ** The libraries behind the program

    What the program takes from the Go runtime, the platform and its two
    decoding libraries is a parameter of the model: nothing about these
    functions is assumed. *)

Record ghHostConfig := { OAuthToken : string }.

(** An element of the response of the pull-request listing endpoint, as the
    anonymous struct of [findPRForBranch] decodes it. *)
Record apiPullRequest := {
  api_Number : Z;
  api_State : string;
  api_MergedAt : string;
  api_Head_Ref : string
}.

(** The fields of [url.URL] the program reads. *)
Record URL := { Host : string; Path : string }.

Class GoLib := {
  (** [runtime.GOOS] *)
  runtime_GOOS : string;
  (** [filepath.Join] *)
  filepath_Join : list string -> string;
  (** [yaml.Unmarshal] into a [map[string]ghHostConfig] *)
  yaml_Unmarshal : string -> result (gmap string ghHostConfig);
  (** [json.Unmarshal] into the slice of [findPRForBranch] *)
  json_Unmarshal : string -> result (list apiPullRequest);
  (** [url.Parse] *)
  url_Parse : string -> result URL
}.

(** ** [parseGitHubRepo] *)

Definition notSlash (a : ascii) : bool := negb (Ascii.eqb a "/").

(** [.] without the flag [s]: any character but a line feed. *)
Definition anyChar (a : ascii) : bool := negb (Ascii.eqb a "010").

(** [git@github\.com:([^/]+)/(.+?)(?:\.git)?$] *)
Definition sshPattern : regexp.regex :=
  let open := regexp.Cat in
  open (regexp.Lit "git@github.com:")
    (open (regexp.Group 1 (regexp.Plus true (regexp.Class notSlash)))
       (open (regexp.Lit "/")
          (open (regexp.Group 2 (regexp.Plus false (regexp.Class anyChar)))
             (open (regexp.Opt true (regexp.Lit ".git"))
                regexp.EndText)))).

Definition parseGitHubRepo `{GoLib} (remoteURL : string) : result string :=
  match regexp.find sshPattern remoteURL with
  | Some matches =>
      OK (regexp.submatch matches 1 ++ "/"
          ++ strings.TrimSuffix (regexp.submatch matches 2) ".git")
  | None =>
      match url_Parse remoteURL with
      | OK u =>
          if String.eqb (Host u) "github.com" then
            let path := strings.TrimPrefix (Path u) "/" in
            let path := strings.TrimSuffix path ".git" in
            OK path
          else Err ("could not parse GitHub repo from URL: " ++ remoteURL)
      | Err _ => Err ("could not parse GitHub repo from URL: " ++ remoteURL)
      end
  end.

(** ** Programs with effects

    What the program does to the world around it is an effect: a request with
    an answer of a known type.  A program is a tree of requests; [Exit] is
    [os.Exit], which ends the process wherever it is called.  Text written to
    the standard streams is kept apart, since the program never reads it
    back. *)

Record HttpResponse := {
  Status : string;            (** [resp.Status], for instance [404 Not Found] *)
  StatusCode : Z;             (** [resp.StatusCode] *)
  Body : string;              (** the bytes [io.ReadAll(resp.Body)] returns *)
  BodyErr : option error      (** the error [io.ReadAll(resp.Body)] returns *)
}.

Inductive Eff : Type -> Type :=
| Getenv (name : string) : Eff string
| UserHomeDir : Eff (result string)
| ReadFile (name : string) : Eff (result string)
| KeyringGet (service user : string) : Eff (result string)
| CmdOutput (name : string) (args : list string) : Eff (result string)
| CmdRun (name : string) (args : list string) : Eff (option error)
| HttpDo (method url : string) (header : list (string * string))
    : Eff (result HttpResponse).

Inductive Stream := Stdout | Stderr.

Inductive Prog (A : Type) : Type :=
| Ret (a : A)
| Exit (code : Z)
| Print (f : Stream) (text : string) (k : Prog A)
| Vis {X : Type} (e : Eff X) (k : X -> Prog A).

Arguments Ret {A} a.
Arguments Exit {A} code.
Arguments Print {A} f text k.
Arguments Vis {A X} e k.

Fixpoint bind {A B} (p : Prog A) (f : A -> Prog B) : Prog B :=
  match p with
  | Ret a => f a
  | Exit code => Exit code
  | Print s text k => Print s text (bind k f)
  | Vis e k => Vis e (fun x => bind (k x) f)
  end.

Notation "'let*' x ':=' p 'in' q" := (bind p (fun x => q))
  (at level 10, x name, p at level 100, q at level 200).

Definition call {X} (e : Eff X) : Prog X := Vis e Ret.

(** The line feed that ends a printed line. *)
Definition nl : string := String "010" EmptyString.

(** [%d] *)
Definition itoa (n : Z) : string := pretty n.

Definition Printf (text : string) : Prog unit := Print Stdout text (Ret tt).
Definition Println (text : string) : Prog unit := Print Stdout (text ++ nl) (Ret tt).
Definition Eprintf (text : string) : Prog unit := Print Stderr text (Ret tt).

(** ** The program *)

Record PullRequest := {
  Number : Z;
  State : string;
  MergedAt : string;
  HeadRefName : string
}.

Definition nonEmpty (s : string) : bool := negb (String.eqb s "").

Section Program.

Context `{GoLib}.

Definition getGitHubToken : Prog (result string) :=
  let* token := call (Getenv "GH_TOKEN") in
  if nonEmpty token then Ret (OK token) else
  let* token := call (Getenv "GITHUB_TOKEN") in
  if nonEmpty token then Ret (OK token) else
  let* configDir := call (Getenv "GH_CONFIG_DIR") in
  let* configDir :=
    if nonEmpty configDir then Ret (OK configDir)
    else if String.eqb runtime_GOOS "windows" then
      let* appdata := call (Getenv "APPDATA") in
      Ret (OK (filepath_Join [appdata; "GitHub CLI"]))
    else
      let* home := call UserHomeDir in
      match home with
      | Err err => Ret (Err ("could not find home directory: " ++ err))
      | OK home => Ret (OK (filepath_Join [home; ".config"; "gh"]))
      end in
  match configDir with
  | Err err => Ret (Err err)
  | OK configDir =>
      let hostsFile := filepath_Join [configDir; "hosts.yml"] in
      let* data := call (ReadFile hostsFile) in
      match data with
      | Err err =>
          Ret (Err ("could not read gh config file " ++ hostsFile ++ ": " ++ err))
      | OK data =>
          match yaml_Unmarshal data with
          | Err err => Ret (Err ("could not parse gh config file: " ++ err))
          | OK hosts =>
              (* [hostConfig, ok := hosts["github.com"]; ok && hostConfig.OAuthToken != ""] *)
              match
                match hosts !! "github.com" with
                | Some hostConfig =>
                    if nonEmpty (OAuthToken hostConfig) then Some hostConfig else None
                | None => None
                end
              with
              | Some hostConfig => Ret (OK (OAuthToken hostConfig))
              | None =>
                  let* token := call (KeyringGet "gh:github.com" "") in
                  match token with
                  | OK token =>
                      if nonEmpty token then Ret (OK token)
                      else Ret (Err "no GitHub token found in gh config or keyring")
                  | Err _ => Ret (Err "no GitHub token found in gh config or keyring")
                  end
              end
          end
      end
  end.

(** The loop body of [getLocalBranches]: one scanned line. *)
Definition keepBranch (branches : list string) (line : string) : list string :=
  let branch := strings.TrimSpace line in
  if nonEmpty branch
     && negb (String.eqb branch "main")
     && negb (String.eqb branch "master")
  then branches ++ [branch]
  else branches.

Definition getLocalBranches : Prog (list string * option error) :=
  let* output := call (CmdOutput "git" ["branch"; "--format=%(refname:short)"]) in
  match output with
  | Err err => Ret ([], Some err)
  | OK output =>
      let '(lines, scanErr) := bufio.Scan output in
      Ret (fold_left keepBranch lines [], scanErr)
  end.

Definition getRepoName : Prog (result string) :=
  let* output := call (CmdOutput "git" ["remote"; "get-url"; "origin"]) in
  match output with
  | Err err => Ret (Err ("failed to get remote URL: " ++ err))
  | OK output =>
      let remoteURL := strings.TrimSpace output in
      Ret (parseGitHubRepo remoteURL)
  end.

Definition findPRForBranch (repo branch token : string)
    : Prog (result (option PullRequest)) :=
  match strings.SplitN2 repo "/" with
  | [owner; _] =>
      let apiURL :=
        "https://api.github.com/repos/" ++ repo ++ "/pulls?head=" ++ owner
        ++ ":" ++ branch ++ "&state=all&per_page=1" in
      (* [http.NewRequest] fails when the URL does not parse *)
      match url_Parse apiURL with
      | Err err => Ret (Err err)
      | OK _ =>
          let* resp :=
            call (HttpDo "GET" apiURL
                    [("Accept", "application/vnd.github+json");
                     ("Authorization", "Bearer " ++ token);
                     ("X-GitHub-Api-Version", "2022-11-28")]) in
          match resp with
          | Err err => Ret (Err err)
          | OK resp =>
              if negb (StatusCode resp =? 200)%Z then
                Ret (Err ("GitHub API error: " ++ Status resp ++ " - " ++ Body resp))
              else
                match BodyErr resp with
                | Some err => Ret (Err err)
                | None =>
                    match json_Unmarshal (Body resp) with
                    | Err err => Ret (Err err)
                    | OK [] => Ret (OK None)
                    | OK (pr0 :: _) =>
                        Ret (OK (Some {| Number := api_Number pr0;
                                         State := api_State pr0;
                                         MergedAt := api_MergedAt pr0;
                                         HeadRefName := api_Head_Ref pr0 |}))
                    end
                end
          end
      end
  | _ => Ret (Err ("invalid repo format: " ++ repo))
  end.

Definition deleteBranch (branch : string) : Prog (option error) :=
  call (CmdRun "git" ["branch"; "-D"; branch]).

(** *** [main] *)

Definition usage : Prog unit :=
  let* _ := Println "Usage: git-tidy [--dry-run|-n]" in
  let* _ := Println "" in
  let* _ := Println "Deletes local branches whose PRs have been merged." in
  let* _ := Println "" in
  let* _ := Println "Options:" in
  Println "  --dry-run, -n  Show what would be deleted without deleting".

(** The loop over [os.Args[1:]]. *)
Fixpoint main_args (args : list string) (dryRun : bool) : Prog bool :=
  match args with
  | [] => Ret dryRun
  | arg :: rest =>
      let dryRun :=
        if String.eqb arg "--dry-run" || String.eqb arg "-n" then true else dryRun in
      if String.eqb arg "--help" || String.eqb arg "-h" then
        let* _ := usage in Exit 0
      else main_args rest dryRun
  end.

(** The loop over [branches]. *)
Fixpoint main_check (repo token : string) (branches toDelete : list string)
    : Prog (list string) :=
  match branches with
  | [] => Ret toDelete
  | branch :: rest =>
      let* pr := findPRForBranch repo branch token in
      match pr with
      | Err err =>
          let* _ := Printf ("  " ++ branch ++ ": error checking PR: " ++ err ++ nl) in
          main_check repo token rest toDelete
      | OK None =>
          let* _ := Printf ("  " ++ branch ++ ": no PR found" ++ nl) in
          main_check repo token rest toDelete
      | OK (Some pr) =>
          if nonEmpty (MergedAt pr) then
            let* _ := Printf ("  " ++ branch ++ ": PR #" ++ itoa (Number pr)
                              ++ " merged" ++ nl) in
            main_check repo token rest (toDelete ++ [branch])
          else
            let* _ := Printf ("  " ++ branch ++ ": PR #" ++ itoa (Number pr)
                              ++ " not merged (state: " ++ State pr ++ ")" ++ nl) in
            main_check repo token rest toDelete
      end
  end.

(** The loop over [toDelete]. *)
Fixpoint main_delete (dryRun : bool) (toDelete : list string) : Prog unit :=
  match toDelete with
  | [] => Ret tt
  | branch :: rest =>
      if dryRun then
        let* _ := Printf ("  Would delete: " ++ branch ++ nl) in
        main_delete dryRun rest
      else
        let* err := deleteBranch branch in
        match err with
        | Some err =>
            let* _ := Printf ("  Error deleting " ++ branch ++ ": " ++ err ++ nl) in
            main_delete dryRun rest
        | None =>
            let* _ := Printf ("  Deleted: " ++ branch ++ nl) in
            main_delete dryRun rest
        end
  end.

(** [args] is [os.Args[1:]]. *)
Definition main (args : list string) : Prog unit :=
  let* dryRun := main_args args false in
  let* found := getLocalBranches in
  match found with
  | (_, Some err) =>
      let* _ := Eprintf ("Error getting local branches: " ++ err ++ nl) in
      Exit 1
  | (branches, None) =>
      if (length branches =? 0)%nat then
        Println "No branches to check (only main exists)"
      else
        let* _ := Printf ("Found " ++ itoa (Z.of_nat (length branches))
                          ++ " branches to check" ++ nl) in
        let* token := getGitHubToken in
        match token with
        | Err err =>
            let* _ := Eprintf ("Error getting GitHub token: " ++ err ++ nl) in
            Exit 1
        | OK token =>
            let* repo := getRepoName in
            match repo with
            | Err err =>
                let* _ := Eprintf ("Error getting repo name: " ++ err ++ nl) in
                Exit 1
            | OK repo =>
                let* toDelete := main_check repo token branches [] in
                if (length toDelete =? 0)%nat then
                  Println (nl ++ "No branches to delete")
                else
                  let* _ := Printf (nl ++ "Branches to delete: "
                                    ++ itoa (Z.of_nat (length toDelete)) ++ nl) in
                  main_delete dryRun toDelete
            end
        end
  end.

End Program.

(** ** Running a program

    The world answers the requests: a handler maps a request and the state of
    the world to an answer and the next state.  Nothing is assumed about it.
    A run yields how the program ended, the final state, and the log of what
    it printed and requested, in order. *)

Record Handler (W : Type) := { handle : forall X, Eff X -> W -> X * W }.

Arguments handle {W} h {X} e w.

Inductive Event : Type :=
| EvPrint (f : Stream) (text : string)
| EvCall {X : Type} (e : Eff X) (x : X).

Inductive Outcome (A : Type) : Type :=
| Returned (a : A)
| Exited (code : Z).

Arguments Returned {A} a.
Arguments Exited {A} code.

Fixpoint run {W A} (h : Handler W) (p : Prog A) (w : W)
    : Outcome A * W * list Event :=
  match p with
  | Ret a => (Returned a, w, [])
  | Exit code => (Exited code, w, [])
  | Print f text k =>
      let '(o, w', log) := run h k w in (o, w', EvPrint f text :: log)
  | Vis e k =>
      let '(x, w1) := handle h e w in
      let '(o, w2, log) := run h (k x) w1 in
      (o, w2, EvCall e x :: log)
  end.

(** The exit status of the process: [0] when [main] returns. *)
Definition exitStatus (o : Outcome unit) : Z :=
  match o with
  | Returned _ => 0
  | Exited code => code
  end.

(** The branch a logged request deletes: [git branch -D <branch>] run with
    [cmd.Run]. *)
Definition deleteRequest (ev : Event) : option string :=
  match ev with
  | EvCall (CmdRun name [a1; a2; branch]) _ =>
      if String.eqb name "git" && String.eqb a1 "branch" && String.eqb a2 "-D"
      then Some branch else None
  | _ => None
  end.

(** The branches a run asked to delete, in order. *)
Definition deletions (log : list Event) : list string := omap deleteRequest log.

(** The requests that reach outside the repository: the environment, the
    file system, the keyring, the remote URL and the network. *)
Definition isCmdBranchList (name : string) (args : list string) : bool :=
  String.eqb name "git"
  && match args with
     | [a1; a2] => String.eqb a1 "branch" && String.eqb a2 "--format=%(refname:short)"
     | _ => false
     end.

Definition isResolution (ev : Event) : bool :=
  match ev with
  | EvPrint _ _ => false
  | EvCall (CmdOutput name args) _ => negb (isCmdBranchList name args)
  | EvCall (CmdRun _ _) _ => false
  | EvCall _ _ => true
  end.

(** ** A simulated world

    A small world to run the program in: environment variables, files, a
    keyring entry, the answers of [git] and of the API by URL.  Deleting a
    branch is recorded in [deleted]; the branches of [locked] cannot be
    deleted. *)

Module Sim.

Fixpoint assoc {V} (key : string) (l : list (string * V)) : option V :=
  match l with
  | [] => None
  | (k, v) :: rest => if String.eqb k key then Some v else assoc key rest
  end.

Record World := {
  env : list (string * string);
  home : result string;
  files : list (string * string);
  keyring : result string;
  branchList : result string;
  remote : result string;
  api : list (string * result HttpResponse);
  locked : list string;
  deleted : list string
}.

Definition setDeleted (w : World) (branch : string) : World :=
  {| env := env w; home := home w; files := files w; keyring := keyring w;
     branchList := branchList w; remote := remote w; api := api w;
     locked := locked w; deleted := deleted w ++ [branch] |}.

Definition answer {X} (e : Eff X) (w : World) : X * World :=
  match e in Eff X return X * World with
  | Getenv name => (default "" (assoc name (env w)), w)
  | UserHomeDir => (home w, w)
  | ReadFile name =>
      (match assoc name (files w) with
       | Some data => OK data
       | None => Err ("open " ++ name ++ ": no such file or directory")
       end, w)
  | KeyringGet _ _ => (keyring w, w)
  | CmdOutput name args =>
      (if isCmdBranchList name args then branchList w else remote w, w)
  | CmdRun _ args =>
      match args with
      | [_; _; branch] =>
          if existsb (String.eqb branch) (locked w)
          then (Some "exit status 1", w)
          else (None, setDeleted w branch)
      | _ => (Some "exit status 129", w)
      end
  | HttpDo _ url _ =>
      (default (Err "dial tcp: lookup api.github.com: no such host")
         (assoc url (api w)), w)
  end.

Definition handler : Handler World := {| handle := @answer |}.

(** Stand-ins for the libraries, defined on the inputs of the examples. *)

Fixpoint joinPath (elem : list string) : string :=
  match elem with
  | [] => ""
  | [e] => e
  | e :: rest => e ++ "/" ++ joinPath rest
  end.

Definition hostsOf (data : string) : result (gmap string ghHostConfig) :=
  if String.prefix "github.com: " data then
    OK {[ "github.com" := {| OAuthToken := substring 12 (String.length data - 12) data |} ]}
  else if String.eqb data "" then OK ∅
  else Err "yaml: unmarshal errors".

Definition merged10 (ref : string) : apiPullRequest :=
  {| api_Number := 10; api_State := "closed";
     api_MergedAt := "2024-05-01T10:00:00Z"; api_Head_Ref := ref |}.

Definition open11 : apiPullRequest :=
  {| api_Number := 11; api_State := "open"; api_MergedAt := ""; api_Head_Ref := "feature/c" |}.

Definition pullsOf (body : string) : result (list apiPullRequest) :=
  if String.eqb body "[]" then OK []
  else if String.eqb body "[#10]" then OK [merged10 "feature/a"]
  else if String.eqb body "[#10 from fork]" then OK [merged10 "patch-1"]
  else if String.eqb body "[#11]" then OK [open11]
  else Err "invalid character".

Definition urlOf (rawURL : string) : result URL :=
  if String.prefix "https://" rawURL then
    let rest := substring 8 (String.length rawURL - 8) rawURL in
    match strings.CutByte "/" rest with
    | Some (host, path) => OK {| Host := host; Path := "/" ++ path |}
    | None => OK {| Host := rest; Path := "" |}
    end
  else Err "parse: first path segment in URL cannot contain colon".

#[export] Instance lib : GoLib := {|
  runtime_GOOS := "linux";
  filepath_Join := joinPath;
  yaml_Unmarshal := hostsOf;
  json_Unmarshal := pullsOf;
  url_Parse := urlOf
|}.

Definition ok200 (body : string) : result HttpResponse :=
  OK {| Status := "200 OK"; StatusCode := 200; Body := body; BodyErr := None |}.

Definition pullsURL (branch : string) : string :=
  "https://api.github.com/repos/acme/tool/pulls?head=acme:" ++ branch
  ++ "&state=all&per_page=1".

(** A checkout of [acme/tool] with three branches besides [main]: the pull
    request of [feature/a] is merged, [feature/b] has none and the one of
    [feature/c] is open.  The token is in the environment. *)
Definition checkout : World := {|
  env := [("GH_TOKEN", "ghp_token")];
  home := OK "/home/dev";
  files := [];
  keyring := Err "secret not found in keyring";
  branchList := OK ("feature/a" ++ nl ++ "feature/b" ++ nl ++ "main" ++ nl
                    ++ "feature/c" ++ nl);
  remote := OK ("git@github.com:acme/tool.git" ++ nl);
  api := [(pullsURL "feature/a", ok200 "[#10]");
          (pullsURL "feature/b", ok200 "[]");
          (pullsURL "feature/c", ok200 "[#11]")];
  locked := [];
  deleted := []
|}.

End Sim.

(** * Properties *)

(** ** Running a sequence *)

Lemma run_bind {W A B} (h : Handler W) (p : Prog A) (f : A -> Prog B) (w : W) :
  run h (bind p f) w =
  match run h p w with
  | (Returned a, w1, log1) =>
      let '(o, w2, log2) := run h (f a) w1 in (o, w2, (log1 ++ log2)%list)
  | (Exited code, w1, log1) => (Exited code, w1, log1)
  end.
Proof.
  revert w. induction p as [a | code | s text k IH | X e k IH]; intros w; simpl.
  - destruct (run h (f a) w) as [[o w2] log2]. reflexivity.
  - reflexivity.
  - rewrite IH. destruct (run h k w) as [[[a | code] w1] log1]; simpl.
    + destruct (run h (f a) w1) as [[o w2] log2]. reflexivity.
    + reflexivity.
  - destruct (handle h e w) as [x w1]. rewrite IH.
    destruct (run h (k x) w1) as [[[a | code] w2] log1]; simpl.
    + destruct (run h (f a) w2) as [[o w3] log2]. reflexivity.
    + reflexivity.
Qed.

Lemma deletions_app (l1 l2 : list Event) :
  deletions (l1 ++ l2)%list = (deletions l1 ++ deletions l2)%list.
Proof. unfold deletions. apply omap_app. Qed.

Lemma deletions_print (f : Stream) (text : string) (l : list Event) :
  deletions (EvPrint f text :: l) = deletions l.
Proof. reflexivity. Qed.

Lemma deletions_nil : deletions [] = [].
Proof. reflexivity. Qed.

(** ** The command line *)

Definition isDryRunFlag (arg : string) : bool :=
  String.eqb arg "--dry-run" || String.eqb arg "-n".

Definition isHelpFlag (arg : string) : bool :=
  String.eqb arg "--help" || String.eqb arg "-h".

(** The four arguments the program knows. *)
Definition recognized (arg : string) : bool := isDryRunFlag arg || isHelpFlag arg.

Section CommandLine.

Context `{GoLib}.

(** The loop over the arguments ends the process at the first help flag,
    and otherwise reports whether a dry-run flag occurs. *)
Lemma main_args_spec (args : list string) (dryRun : bool) :
  main_args args dryRun =
  if existsb isHelpFlag args then let* _ := usage in Exit 0
  else Ret (dryRun || existsb isDryRunFlag args).
Proof.
  revert dryRun. induction args as [| arg rest IH]; intros dryRun; simpl.
  - rewrite orb_false_r. reflexivity.
  - fold (isHelpFlag arg). fold (isDryRunFlag arg).
    destruct (isHelpFlag arg); simpl; [reflexivity |].
    rewrite IH. destruct (existsb isHelpFlag rest); [reflexivity |].
    destruct (isDryRunFlag arg), dryRun; reflexivity.
Qed.

Lemma existsb_filter_recognized (f : string -> bool) (args : list string) :
  (forall a, f a = true -> recognized a = true) ->
  existsb f (List.filter recognized args) = existsb f args.
Proof.
  intros Hf. induction args as [| arg rest IH]; simpl; [reflexivity |].
  destruct (recognized arg) eqn:Hr; simpl; rewrite IH; [reflexivity |].
  destruct (f arg) eqn:Hfa; [| reflexivity].
  apply Hf in Hfa. congruence.
Qed.

(** C9.  Only [--dry-run], [-n], [--help] and [-h] are looked at: an
    argument that is none of them changes nothing in the loop over the
    arguments, so the program run with any argument list is the program run
    with the unrecognized arguments removed, and both do the same under
    every handler, deletions included. *)
Theorem unrecognized_arguments_ignored (args : list string) :
  (forall (arg : string) (rest : list string) (dryRun : bool),
      recognized arg = false ->
      main_args (arg :: rest) dryRun = main_args rest dryRun)
  /\ main args = main (List.filter recognized args)
  /\ (forall W (h : Handler W) (w : W),
        run h (main args) w = run h (main (List.filter recognized args)) w).
Proof.
  assert (Heq : main args = main (List.filter recognized args)).
  { unfold main. rewrite !main_args_spec.
    rewrite !existsb_filter_recognized; [reflexivity | |];
      intros a Ha; unfold recognized; rewrite Ha; auto using orb_true_r. }
  split; [| split; [exact Heq | intros; rewrite <- Heq; reflexivity]].
  intros arg rest dryRun Hr. unfold recognized in Hr.
  apply orb_false_elim in Hr as [Hd Hh].
  rewrite !main_args_spec. simpl. rewrite Hd, Hh. simpl.
  reflexivity.
Qed.

End CommandLine.

(** ** What a program can do

    [always okExit okEff p]: every [os.Exit] in [p] has a status accepted by
    [okExit] and every request of [p] is accepted by [okEff], whatever the
    answers. *)

Fixpoint always {A} (okExit : Z -> Prop) (okEff : forall X, Eff X -> Prop)
    (p : Prog A) : Prop :=
  match p with
  | Ret _ => True
  | Exit code => okExit code
  | Print _ _ k => always okExit okEff k
  | Vis e k => okEff _ e /\ forall x, always okExit okEff (k x)
  end.

Definition notCmdRun (X : Type) (e : Eff X) : Prop :=
  match e with
  | CmdRun _ _ => False
  | _ => True
  end.

Definition notHttp (X : Type) (e : Eff X) : Prop :=
  match e with
  | HttpDo _ _ _ => False
  | _ => True
  end.

Definition anyEff (X : Type) (e : Eff X) : Prop := True.

(** The program never ends the process. *)
Definition returns {A} (p : Prog A) : Prop := always (fun _ => False) anyEff p.

(** The program never runs a command with [cmd.Run]; the only such command of
    [main.go] is [git branch -D]. *)
Definition neverDeletes {A} (p : Prog A) : Prop := always (fun _ => True) notCmdRun p.

Lemma always_bind {A B} okExit okEff (p : Prog A) (f : A -> Prog B) :
  always okExit okEff p ->
  (forall a, always okExit okEff (f a)) ->
  always okExit okEff (bind p f).
Proof.
  intros Hp Hf. induction p as [a | code | s text k IH | X e k IH]; simpl in *; auto.
  destruct Hp as [He Hk]. split; [exact He | intros x; apply IH, Hk].
Qed.

Lemma returns_run {W A} (h : Handler W) (p : Prog A) (w : W) :
  returns p -> exists a, (run h p w).1.1 = Returned a.
Proof.
  revert w. induction p as [a | code | s text k IH | X e k IH]; intros w Hp; simpl in *.
  - eauto.
  - contradiction.
  - destruct (IH w Hp) as [a Ha]. destruct (run h k w) as [[o w1] l]. eauto.
  - destruct Hp as [_ Hk]. destruct (handle h e w) as [x w1].
    destruct (IH x w1 (Hk x)) as [a Ha]. destruct (run h (k x) w1) as [[o w2] l]. eauto.
Qed.

Lemma neverDeletes_run {W A} (h : Handler W) (p : Prog A) (w : W) :
  neverDeletes p -> deletions (run h p w).2 = [].
Proof.
  revert w. induction p as [a | code | s text k IH | X e k IH]; intros w Hp; simpl in *.
  - reflexivity.
  - reflexivity.
  - specialize (IH w Hp). destruct (run h k w) as [[o w1] l]. exact IH.
  - destruct Hp as [He Hk]. destruct (handle h e w) as [x w1].
    specialize (IH x w1 (Hk x)). destruct (run h (k x) w1) as [[o w2] l].
    simpl in *. unfold deletions in *. simpl. rewrite IH.
    destruct e; simpl in He; try contradiction; reflexivity.
Qed.

(** Both facts at once, in the form the proofs below use. *)
Lemma run_quiet {W A} (h : Handler W) (p : Prog A) (w : W) :
  returns p -> neverDeletes p ->
  exists a w1 log, run h p w = (Returned a, w1, log) /\ deletions log = [].
Proof.
  intros Hr Hd. destruct (returns_run h p w Hr) as [a Ha].
  pose proof (neverDeletes_run h p w Hd) as Hl.
  destruct (run h p w) as [[o w1] log]. simpl in *. subst o. eauto.
Qed.

Ltac crunch_always :=
  repeat first
    [ progress (simpl; intros)
    | match goal with
      | |- _ /\ _ => split
      | |- True => exact I
      | |- anyEff _ _ => exact I
      | |- notCmdRun _ _ => exact I
      | |- notHttp _ _ => exact I
      | |- always _ _ (bind _ _) => apply always_bind
      | |- always _ _ (match ?x with _ => _ end) => destruct x
      | |- always _ _ (if ?b then _ else _) => destruct b
      | |- always _ _ (let '(_, _) := ?x in _) => destruct x
      end ].

Section Components.

Context `{GoLib}.

Lemma getLocalBranches_returns : returns getLocalBranches.
Proof. unfold returns, getLocalBranches. crunch_always. Qed.

Lemma getLocalBranches_neverDeletes : neverDeletes getLocalBranches.
Proof. unfold neverDeletes, getLocalBranches. crunch_always. Qed.

Lemma getGitHubToken_returns : returns getGitHubToken.
Proof. unfold returns, getGitHubToken. crunch_always. Qed.

Lemma getGitHubToken_neverDeletes : neverDeletes getGitHubToken.
Proof. unfold neverDeletes, getGitHubToken. crunch_always. Qed.

Lemma getRepoName_returns : returns getRepoName.
Proof. unfold returns, getRepoName. crunch_always. Qed.

Lemma getRepoName_neverDeletes : neverDeletes getRepoName.
Proof. unfold neverDeletes, getRepoName. crunch_always. Qed.

Lemma findPRForBranch_returns repo branch token :
  returns (findPRForBranch repo branch token).
Proof. unfold returns, findPRForBranch. crunch_always. Qed.

Lemma findPRForBranch_neverDeletes repo branch token :
  neverDeletes (findPRForBranch repo branch token).
Proof. unfold neverDeletes, findPRForBranch. crunch_always. Qed.

Lemma main_check_returns repo token branches toDelete :
  returns (main_check repo token branches toDelete).
Proof.
  revert toDelete. induction branches as [| branch rest IH]; intros toDelete.
  - exact I.
  - cbn [main_check]. apply always_bind; [apply findPRForBranch_returns |].
    intros [[pr |] | err]; crunch_always; apply IH.
Qed.

Lemma main_check_neverDeletes repo token branches toDelete :
  neverDeletes (main_check repo token branches toDelete).
Proof.
  revert toDelete. induction branches as [| branch rest IH]; intros toDelete.
  - exact I.
  - cbn [main_check]. apply always_bind; [apply findPRForBranch_neverDeletes |].
    intros [[pr |] | err]; crunch_always; apply IH.
Qed.

Lemma main_delete_returns dryRun toDelete : returns (main_delete dryRun toDelete).
Proof.
  unfold returns. induction toDelete as [| branch rest IH]; [exact I |].
  cbn [main_delete]. destruct dryRun; crunch_always; apply IH.
Qed.

Lemma main_delete_dryRun_neverDeletes toDelete :
  neverDeletes (main_delete true toDelete).
Proof.
  unfold neverDeletes. induction toDelete as [| branch rest IH]; [exact I |].
  cbn [main_delete]. crunch_always. apply IH.
Qed.

End Components.

(** ** The driver, stage by stage *)

Section Driver.

Context `{GoLib} {W : Type} (h : Handler W).

Definition printed (text : string) : Event := EvPrint Stdout text.

Lemma run_usage_exit (w : W) :
  exists log, run h (let* _ := usage in Exit 0 : Prog bool) w = (Exited 0, w, log)
              /\ Forall (fun ev => exists text, ev = printed text) log.
Proof.
  eexists. split; [reflexivity |].
  repeat constructor; eexists; reflexivity.
Qed.

(** A dry run of the last loop prints one line per branch and requests
    nothing. *)
Lemma run_main_delete_dryRun (toDelete : list string) (w : W) :
  run h (main_delete true toDelete) w =
  (Returned tt, w,
   map (fun branch => printed ("  Would delete: " ++ branch ++ nl)) toDelete).
Proof.
  induction toDelete as [| branch rest IH]; [reflexivity |].
  cbn [main_delete]. simpl. rewrite IH. reflexivity.
Qed.

(** The last loop otherwise asks to delete every branch of the delete set,
    once and in order, whether or not a deletion fails. *)
Lemma run_main_delete (toDelete : list string) (w : W) :
  exists w1 log, run h (main_delete false toDelete) w = (Returned tt, w1, log)
                 /\ deletions log = toDelete.
Proof.
  revert w. induction toDelete as [| branch rest IH]; intros w.
  - exists w, []. split; reflexivity.
  - cbn [main_delete]. simpl.
    destruct (handle h (CmdRun "git" ["branch"; "-D"; branch]) w) as [err w1].
    destruct (IH w1) as (w2 & log & Hrun & Hdel).
    destruct err as [err |]; simpl; rewrite Hrun; eexists _, _;
      (split; [reflexivity |]); unfold deletions in *; simpl; f_equal;
      exact Hdel.
Qed.

(** The run of [main] when no help flag is given, one stage after the
    other. *)
Lemma run_main_stages (args : list string) (w : W) :
  existsb isHelpFlag args = false ->
  exists found w1 log1,
    run h getLocalBranches w = (Returned found, w1, log1) /\ deletions log1 = [] /\
    match found with
    | (_, Some err) =>
        run h (main args) w =
        (Exited 1, w1,
         log1 ++ [EvPrint Stderr ("Error getting local branches: " ++ err ++ nl)])%list
    | ([], None) =>
        run h (main args) w =
        (Returned tt, w1,
         log1 ++ [printed ("No branches to check (only main exists)" ++ nl)])%list
    | (branches, None) =>
        exists token w2 log2,
          run h getGitHubToken w1 = (Returned token, w2, log2) /\ deletions log2 = [] /\
          let pre2 :=
            (log1 ++ printed ("Found " ++ itoa (Z.of_nat (length branches))
                               ++ " branches to check" ++ nl) :: log2)%list in
          match token with
          | Err err =>
              run h (main args) w =
              (Exited 1, w2,
               pre2 ++ [EvPrint Stderr ("Error getting GitHub token: " ++ err ++ nl)])%list
          | OK token =>
              exists repo w3 log3,
                run h getRepoName w2 = (Returned repo, w3, log3) /\ deletions log3 = [] /\
                match repo with
                | Err err =>
                    run h (main args) w =
                    (Exited 1, w3,
                     pre2 ++ log3
                     ++ [EvPrint Stderr ("Error getting repo name: " ++ err ++ nl)])%list
                | OK repo =>
                    exists toDelete w4 log4,
                      run h (main_check repo token branches []) w3
                      = (Returned toDelete, w4, log4) /\ deletions log4 = [] /\
                      match toDelete with
                      | [] =>
                          run h (main args) w =
                          (Returned tt, w4,
                           pre2 ++ log3 ++ log4
                           ++ [printed (nl ++ "No branches to delete" ++ nl)])%list
                      | _ =>
                          exists w5 log5,
                            run h (main_delete (existsb isDryRunFlag args) toDelete) w4
                            = (Returned tt, w5, log5) /\
                            run h (main args) w =
                            (Returned tt, w5,
                             pre2 ++ log3 ++ log4
                             ++ printed (nl ++ "Branches to delete: "
                                         ++ itoa (Z.of_nat (length toDelete)) ++ nl)
                                :: log5)%list
                      end
                end
          end
    end.
Proof.
  intros Hhelp. unfold main. rewrite main_args_spec, Hhelp. cbn [bind orb].
  rewrite run_bind.
  destruct (run_quiet h getLocalBranches w getLocalBranches_returns
              getLocalBranches_neverDeletes) as (found & w1 & log1 & E1 & D1).
  rewrite E1. exists found, w1, log1. split; [reflexivity |]. split; [exact D1 |].
  destruct found as [branches [err |]]; [destruct branches; reflexivity |].
  destruct branches as [| b0 bs]; [reflexivity |].
  cbn [length Nat.eqb Printf bind run]. rewrite run_bind.
  set (branches := b0 :: bs).
  destruct (run_quiet h getGitHubToken w1 getGitHubToken_returns
              getGitHubToken_neverDeletes) as (token & w2 & log2 & E2 & D2).
  rewrite E2. exists token, w2, log2. split; [reflexivity |]. split; [exact D2 |].
  destruct token as [token | err]; [| cbn; rewrite <- app_assoc; reflexivity].
  rewrite run_bind.
  destruct (run_quiet h getRepoName w2 getRepoName_returns
              getRepoName_neverDeletes) as (repo & w3 & log3 & E3 & D3).
  rewrite E3. exists repo, w3, log3. split; [reflexivity |]. split; [exact D3 |].
  destruct repo as [repo | err];
    [| cbn; rewrite <- !app_assoc; reflexivity].
  rewrite run_bind.
  destruct (run_quiet h (main_check repo token branches []) w3
              (main_check_returns _ _ _ _) (main_check_neverDeletes _ _ _ _))
    as (toDelete & w4 & log4 & E4 & D4).
  rewrite E4. exists toDelete, w4, log4. split; [reflexivity |]. split; [exact D4 |].
  destruct toDelete as [| d0 ds]; [cbn; rewrite <- !app_assoc; reflexivity |].
  cbn [length Nat.eqb Printf bind run]. set (toDelete := d0 :: ds).
  destruct (returns_run h (main_delete (existsb isDryRunFlag args) toDelete) w4
              (main_delete_returns _ _)) as [[] E5].
  destruct (run h (main_delete _ toDelete) w4) as [[o5 w5] log5] eqn:R5.
  simpl in E5. subst o5. exists w5, log5. split; [reflexivity |].
  cbn. rewrite <- !app_assoc. reflexivity.
Qed.

Lemma run_getLocalBranches (w : W) :
  exists found w1 output,
    run h getLocalBranches w =
    (Returned found, w1,
     [EvCall (CmdOutput "git" ["branch"; "--format=%(refname:short)"]) output]).
Proof.
  unfold getLocalBranches. cbn [call bind run].
  destruct (handle h _ w) as [[output | err] w1]; cbn.
  - destruct (bufio.Scan output) as [lines scanErr]. eexists _, _, _. reflexivity.
  - eexists _, _, _. reflexivity.
Qed.

(** C8.  When no help flag is given and the branch listing yields no branch
    (and no error), the run consists of the listing request and one printed
    notice: the process ends with status 0 in the state the listing left,
    and neither the environment, the file system, the keyring, the remote
    URL nor the network is asked for anything. *)
Theorem empty_discovery_exits_early (args : list string) (w w1 : W)
    (log1 : list Event) :
  existsb isHelpFlag args = false ->
  run h getLocalBranches w = (Returned ([], None), w1, log1) ->
  run h (main args) w =
    (Returned tt, w1,
     log1 ++ [printed ("No branches to check (only main exists)" ++ nl)])%list
  /\ exitStatus (run h (main args) w).1.1 = 0%Z
  /\ existsb isResolution (run h (main args) w).2 = false
  /\ length (run h (main args) w).2 = 2.
Proof.
  intros Hhelp Hfound.
  destruct (run_main_stages args w Hhelp) as (found & w1' & log1' & E1 & _ & Hmain).
  rewrite Hfound in E1. injection E1 as <- <- <-. cbn in Hmain.
  rewrite Hmain. split; [reflexivity |]. cbn [fst snd exitStatus].
  destruct (run_getLocalBranches w) as (found & w2 & output & E).
  rewrite Hfound in E. injection E as _ _ ->.
  repeat split; reflexivity.
Qed.

(** *** The exit status *)

(** A stage whose failure ends the run was reached and failed: the branch
    listing, or, when it found a branch, the token resolution, or, when
    that found a token, the resolution of the repository name. *)
Definition fatalFailure (args : list string) (w : W) : Prop :=
  existsb isHelpFlag args = false /\
  exists found w1 log1,
    run h getLocalBranches w = (Returned found, w1, log1) /\
    match found with
    | (_, Some _) => True
    | (branches, None) =>
        branches <> [] /\
        exists token w2 log2,
          run h getGitHubToken w1 = (Returned token, w2, log2) /\
          match token with
          | Err _ => True
          | OK _ =>
              exists repo w3 log3,
                run h getRepoName w2 = (Returned repo, w3, log3) /\
                is_err repo = true
          end
    end.

(** C5.  The exit status is 1 exactly when the branch listing, the token
    resolution or the resolution of the repository name is reached and
    fails, and then nothing was deleted; in every other run it is 0, whatever
    the lookups and the deletions answer. *)
Theorem exit_status_spec (args : list string) (w : W) :
  (exitStatus (run h (main args) w).1.1 = 1%Z <-> fatalFailure args w)
  /\ (exitStatus (run h (main args) w).1.1 = 1%Z ->
      deletions (run h (main args) w).2 = [])
  /\ (~ fatalFailure args w -> exitStatus (run h (main args) w).1.1 = 0%Z).
Proof.
  destruct (existsb isHelpFlag args) eqn:Hhelp.
  { assert (Hrun : (run h (main args) w).1.1 = Exited 0).
    { unfold main. rewrite main_args_spec, Hhelp. reflexivity. }
    rewrite Hrun. cbn [exitStatus].
    assert (Hnot : ~ fatalFailure args w).
    { intros [Hh _]. congruence. }
    repeat split; try discriminate; tauto. }
  destruct (run_main_stages args w Hhelp) as (found & w1 & log1 & E1 & D1 & Hmain).
  assert (Hfatal : fatalFailure args w <->
    match found with
    | (_, Some _) => True
    | (branches, None) =>
        branches <> [] /\
        exists token w2 log2,
          run h getGitHubToken w1 = (Returned token, w2, log2) /\
          match token with
          | Err _ => True
          | OK _ =>
              exists repo w3 log3,
                run h getRepoName w2 = (Returned repo, w3, log3) /\
                is_err repo = true
          end
    end).
  { unfold fatalFailure. split.
    - intros (_ & found' & w1' & log1' & E1' & Hf).
      rewrite E1 in E1'. injection E1' as <- <- <-. exact Hf.
    - intros Hf. split; [exact Hhelp |]. exists found, w1, log1. auto. }
  rewrite Hfatal. clear Hfatal.
  destruct found as [branches [err |]].
  { assert (Hm : run h (main args) w =
                 (Exited 1, w1,
                  log1 ++ [EvPrint Stderr ("Error getting local branches: "
                                           ++ err ++ nl)])%list)
      by (destruct branches; exact Hmain).
    rewrite Hm. cbn [fst snd exitStatus]. rewrite deletions_app, D1.
    repeat split; tauto. }
  destruct branches as [| b0 bs].
  { rewrite Hmain. cbn [fst snd exitStatus].
    repeat split; try discriminate; tauto. }
  destruct Hmain as (token & w2 & log2 & E2 & D2 & Hmain). cbv zeta in Hmain.
  assert (Htok : forall P : result string -> Prop,
    (exists token' w2' log2',
        run h getGitHubToken w1 = (Returned token', w2', log2') /\ P token')
    <-> P token).
  { intros P. split.
    - intros (token' & w2' & log2' & E2' & HP).
      rewrite E2 in E2'. injection E2' as <- <- <-. exact HP.
    - intros HP. eauto. }
  destruct token as [token | err].
  2:{ rewrite Hmain. cbn [fst snd exitStatus].
      unfold printed.
      rewrite ?deletions_app, ?deletions_print, ?deletions_nil, D1, D2.
      repeat split; try tauto; try discriminate.
      - eexists _, _, _. split; [exact E2 | exact I].
      - intros Hn. exfalso. apply Hn. split; [discriminate |].
        eexists _, _, _. split; [exact E2 | exact I]. }
  destruct Hmain as (repo & w3 & log3 & E3 & D3 & Hmain).
  destruct repo as [repo | err].
  2:{ rewrite Hmain. cbn [fst snd exitStatus].
      unfold printed.
      rewrite ?deletions_app, ?deletions_print, ?deletions_nil, D1, D2, D3.
      assert (Hf : (b0 :: bs) <> [] /\
        exists token' w2' log2',
          run h getGitHubToken w1 = (Returned token', w2', log2') /\
          match token' with
          | Err _ => True
          | OK _ =>
              exists repo w3 log3,
                run h getRepoName w2' = (Returned repo, w3, log3) /\
                is_err repo = true
          end).
      { split; [discriminate |]. eexists _, _, _. split; [exact E2 |].
        eexists _, _, _. split; [exact E3 | reflexivity]. }
      repeat split; try tauto; try discriminate. }
  assert (Hnf : ~ ((b0 :: bs) <> [] /\
        exists token' w2' log2',
          run h getGitHubToken w1 = (Returned token', w2', log2') /\
          match token' with
          | Err _ => True
          | OK _ =>
              exists repo w3 log3,
                run h getRepoName w2' = (Returned repo, w3, log3) /\
                is_err repo = true
          end)).
  { intros (_ & token' & w2' & log2' & E2' & Hr).
    rewrite E2 in E2'. injection E2' as <- <- <-.
    destruct Hr as (repo' & w3' & log3' & E3' & Hr).
    rewrite E3 in E3'. injection E3' as <- <- <-. discriminate. }
  destruct Hmain as (toDelete & w4 & log4 & E4 & D4 & Hmain).
  destruct toDelete as [| d0 ds].
  - rewrite Hmain. cbn [fst snd exitStatus].
    repeat split; try tauto; try discriminate.
  - destruct Hmain as (w5 & log5 & E5 & Hmain). rewrite Hmain.
    cbn [fst snd exitStatus].
    repeat split; try tauto; try discriminate.
Qed.

End Driver.

(** ** Classification and deletion *)

(** The verdict on a branch, from the answer of its lookup. *)
Inductive Verdict := LookupFailed | NoPR | NotMerged | Merged.

Definition verdict (pr : result (option PullRequest)) : Verdict :=
  match pr with
  | Err _ => LookupFailed
  | OK None => NoPR
  | OK (Some pr) => if String.eqb (MergedAt pr) "" then NotMerged else Merged
  end.

Definition isMerged (v : Verdict) : bool :=
  match v with Merged => true | _ => false end.

(** The delete set the verdicts call for: the merged branches, in order. *)
Definition deleteSet (answers : list (string * result (option PullRequest)))
    : list string :=
  map fst (List.filter (fun a => isMerged (verdict a.2)) answers).


Section Reconciliation.

Context `{GoLib} {W : Type} (h : Handler W).

(** The answers of the lookups of [branches], made in this order from the
    state [w]. *)
Fixpoint lookups (repo token : string) (branches : list string) (w : W)
    : list (string * result (option PullRequest)) :=
  match branches with
  | [] => []
  | branch :: rest =>
      match run h (findPRForBranch repo branch token) w with
      | (Returned pr, w1, _) => (branch, pr) :: lookups repo token rest w1
      | (Exited _, _, _) => []
      end
  end.

Lemma lookups_branches repo token branches w :
  map fst (lookups repo token branches w) = branches.
Proof.
  revert w. induction branches as [| branch rest IH]; intros w; [reflexivity |].
  cbn [lookups].
  destruct (returns_run h _ w (findPRForBranch_returns repo branch token)) as [pr E].
  destruct (run h (findPRForBranch repo branch token) w) as [[o w1] log].
  simpl in E. subst o. cbn. rewrite IH. reflexivity.
Qed.

Lemma run_main_check repo token branches toDelete w :
  (run h (main_check repo token branches toDelete) w).1.1 =
  Returned (toDelete ++ deleteSet (lookups repo token branches w))%list.
Proof.
  revert toDelete w. induction branches as [| branch rest IH]; intros toDelete w.
  - cbn. rewrite app_nil_r. reflexivity.
  - cbn [main_check lookups]. rewrite run_bind.
    destruct (returns_run h _ w (findPRForBranch_returns repo branch token)) as [pr E].
    destruct (run h (findPRForBranch repo branch token) w) as [[o w1] log].
    simpl in E. subst o.
    assert (Hstep : forall (text : string) (td : list string),
      (let '(o, w2, log2) :=
         run h (let* _ := Printf text in main_check repo token rest td) w1
       in (o, w2, (log ++ log2)%list)).1.1
      = Returned (td ++ deleteSet (lookups repo token rest w1))%list).
    { intros text td. cbn [Printf bind run].
      specialize (IH td w1).
      destruct (run h (main_check repo token rest td) w1) as [[o w2] log2].
      exact IH. }
    destruct pr as [[pr |] | err]; cbn [deleteSet List.filter verdict snd isMerged map fst].
    + unfold nonEmpty. destruct (String.eqb (MergedAt pr) ""); cbn [negb isMerged].
      * apply Hstep.
      * rewrite Hstep. unfold deleteSet. cbn [map fst].
        rewrite <- app_assoc. reflexivity.
    + apply Hstep.
    + apply Hstep.
Qed.

(** C6.  The delete set is made of the branches, in the order of the
    listing, whose lookup answered a pull request with a non-empty merge
    time: every branch is looked up, whatever the lookups before it
    answered, and a branch whose lookup fails, finds no pull request or
    finds one with an empty merge time is left out. *)
Theorem delete_set_spec (repo token : string) (branches : list string) (w : W) :
  let answers := lookups repo token branches w in
  (run h (main_check repo token branches []) w).1.1 = Returned (deleteSet answers)
  /\ map fst answers = branches
  /\ (forall branch, In branch (deleteSet answers) <->
        exists pr, In (branch, OK (Some pr)) answers /\ MergedAt pr <> "")
  /\ (forall pr, verdict (OK (Some pr)) = Merged <-> MergedAt pr <> "")
  /\ (forall err, verdict (Err err) = LookupFailed)
  /\ verdict (OK None) = NoPR.
Proof.
  intros answers. split; [apply (run_main_check repo token branches []) |].
  split; [apply lookups_branches |].
  assert (Hv : forall pr, verdict (OK (Some pr)) = Merged <-> MergedAt pr <> "").
  { intros pr. cbn. destruct (String.eqb_spec (MergedAt pr) "") as [E | E].
    - split; [discriminate | intros Hn; contradiction].
    - split; [intros _; exact E | reflexivity]. }
  split; [| split; [exact Hv | split; reflexivity]].
  intros branch. unfold deleteSet. rewrite in_map_iff. split.
  - intros ([b pr] & <- & Hin). apply filter_In in Hin as [Hin Hm]. cbn in *.
    destruct pr as [[pr |] | err]; cbn in Hm; try discriminate.
    exists pr. split; [exact Hin |]. apply Hv.
    cbn. destruct (String.eqb (MergedAt pr) ""); [discriminate | reflexivity].
  - intros (pr & Hin & Hm). exists (branch, OK (Some pr)). split; [reflexivity |].
    apply filter_In. split; [exact Hin |]. cbn.
    apply Hv in Hm. cbn in Hm. rewrite Hm. reflexivity.
Qed.

Definition wouldDelete (branch : string) : Event :=
  EvPrint Stdout ("  Would delete: " ++ branch ++ nl).


End Reconciliation.

(** ** Branch discovery *)

(** The branches to check, in the words of the specification: the lines with
    the surrounding white space trimmed, without the empty ones and without
    [main] and [master], in the order of the listing. *)
Definition isCandidate (branch : string) : bool :=
  nonEmpty branch && negb (String.eqb branch "main") && negb (String.eqb branch "master").

Definition listLocalBranches (lines : list string) : list string :=
  List.filter isCandidate (map strings.TrimSpace lines).

Lemma fold_keepBranch (lines branches : list string) :
  fold_left keepBranch lines branches = (branches ++ listLocalBranches lines)%list.
Proof.
  revert branches. induction lines as [| line rest IH]; intros branches.
  - cbn. rewrite app_nil_r. reflexivity.
  - cbn [fold_left]. rewrite IH. unfold keepBranch, listLocalBranches.
    cbn [map List.filter]. unfold isCandidate at 2.
    destruct (nonEmpty (strings.TrimSpace line)
              && negb (String.eqb (strings.TrimSpace line) "main")
              && negb (String.eqb (strings.TrimSpace line) "master")).
    + rewrite <- app_assoc. reflexivity.
    + reflexivity.
Qed.

Lemma nonEmpty_true (s : string) : nonEmpty s = true <-> s <> "".
Proof.
  unfold nonEmpty. destruct (String.eqb_spec s ""); split; try tauto; discriminate.
Qed.


Lemma isCandidate_spec (branch : string) :
  isCandidate branch = true <-> branch <> "" /\ branch <> "main" /\ branch <> "master".
Proof.
  unfold isCandidate. rewrite !andb_true_iff, !negb_true_iff, nonEmpty_true.
  destruct (String.eqb_spec branch "main"), (String.eqb_spec branch "master");
    intuition congruence.
Qed.

Lemma filter_sublist {A} (f : A -> bool) (l : list A) : sublist (List.filter f l) l.
Proof.
  induction l as [| a l IH]; cbn; [constructor |].
  destruct (f a); constructor; exact IH.
Qed.

(** The scanner delivers every line of an output whose lines are shorter
    than its buffer. *)
Lemma Scan_short_lines (output : string) :
  Forall (fun line => String.length line < bufio.MaxScanTokenSize)
         (bufio.rawLines output []) ->
  bufio.Scan output = (map bufio.dropCR (bufio.rawLines output []), None).
Proof.
  unfold bufio.Scan. induction (bufio.rawLines output []) as [| line rest IH];
    intros Hshort; [reflexivity |].
  inversion Hshort as [| ? ? Hline Hrest]; subst.
  cbn [bufio.scanTokens].
  destruct (Nat.leb_spec bufio.MaxScanTokenSize (String.length line)) as [Hle | _];
    [lia |].
  rewrite (IH Hrest). reflexivity.
Qed.

(** ** Token resolution *)




Definition noToken : error := "no GitHub token found in gh config or keyring".

Section TokenResolution.

Context `{GoLib} {W : Type} (h : Handler W).








End TokenResolution.

(** ** Text *)

Lemma append_cons (x : ascii) (a b : string) :
  (String x a ++ b = String x (a ++ b))%string.
Proof. reflexivity. Qed.

Lemma append_nil_l (a : string) : ("" ++ a = a)%string.
Proof. reflexivity. Qed.

Lemma append_assoc (a b c : string) : ((a ++ b) ++ c = a ++ (b ++ c))%string.
Proof.
  induction a as [| x a IH]; [reflexivity |].
  rewrite !append_cons, IH. reflexivity.
Qed.

Lemma append_nil_r (a : string) : (a ++ "" = a)%string.
Proof.
  induction a as [| x a IH]; [reflexivity |].
  rewrite append_cons, IH. reflexivity.
Qed.

Lemma length_append (a b : string) :
  String.length (a ++ b) = String.length a + String.length b.
Proof.
  induction a as [| x a IH]; [reflexivity |].
  rewrite append_cons. cbn [String.length]. rewrite IH. reflexivity.
Qed.

Lemma substring_prefix (a b : string) : substring 0 (String.length a) (a ++ b) = a.
Proof.
  induction a as [| x a IH].
  - rewrite append_nil_l. destruct b; reflexivity.
  - rewrite append_cons. cbn [String.length substring]. rewrite IH. reflexivity.
Qed.

Lemma substring_all (a : string) : substring 0 (String.length a) a = a.
Proof.
  induction a as [| x a IH]; [reflexivity |].
  cbn [String.length substring]. rewrite IH. reflexivity.
Qed.

Lemma substring_suffix (a b : string) :
  substring (String.length a) (String.length b) (a ++ b) = b.
Proof.
  induction a as [| x a IH].
  - rewrite append_nil_l. apply substring_all.
  - rewrite append_cons. cbn [String.length substring]. exact IH.
Qed.

Lemma HasSuffix_append (a suffix : string) :
  strings.HasSuffix (a ++ suffix) suffix = true.
Proof.
  unfold strings.HasSuffix, strings.len. rewrite length_append.
  apply andb_true_iff. split; [apply Nat.leb_le; lia |].
  replace (String.length a + String.length suffix - String.length suffix)
    with (String.length a) by lia.
  rewrite substring_suffix. apply String.eqb_refl.
Qed.

Lemma TrimSuffix_append (a suffix : string) :
  strings.TrimSuffix (a ++ suffix) suffix = a.
Proof.
  unfold strings.TrimSuffix. rewrite HasSuffix_append.
  unfold strings.len. rewrite length_append.
  replace (String.length a + String.length suffix - String.length suffix)
    with (String.length a) by lia.
  apply substring_prefix.
Qed.

(** Every character of a text is in a class. *)
Fixpoint allChars (p : ascii -> bool) (s : string) : bool :=
  match s with
  | EmptyString => true
  | String a s' => p a && allChars p s'
  end.

Lemma CutByte_first (c : ascii) (l r : string) :
  allChars (fun a => negb (Ascii.eqb a c)) l = true ->
  strings.CutByte c (l ++ String c r) = Some (l, r).
Proof.
  induction l as [| a l IH]; intros Hl.
  - rewrite append_nil_l. cbn. rewrite Ascii.eqb_refl. reflexivity.
  - cbn in Hl. apply andb_true_iff in Hl as [Ha Hl]. apply negb_true_iff in Ha.
    rewrite append_cons. cbn [strings.CutByte]. rewrite Ha, (IH Hl). reflexivity.
Qed.

(** ** What the matcher finds *)

Module regexp_facts.

Import regexp.

(** [Matches r s c s1 c1]: [r] reads the text between [s] and [s1], and the
    captures [c] become [c1]. *)
Inductive Matches : regex -> string -> captures -> string -> captures -> Prop :=
| MEmpty s c : Matches Empty s c s c
| MClass p a s c : p a = true -> Matches (Class p) (String a s) c s c
| MCat r1 r2 s c s1 c1 s2 c2 :
    Matches r1 s c s1 c1 -> Matches r2 s1 c1 s2 c2 -> Matches (Cat r1 r2) s c s2 c2
| MOptSkip g r s c : Matches (Opt g r) s c s c
| MOptTake g r s c s1 c1 : Matches r s c s1 c1 -> Matches (Opt g r) s c s1 c1
| MStarStop g r s c : Matches (Star g r) s c s c
| MStarStep g r s c s1 c1 s2 c2 :
    Matches r s c s1 c1 -> Matches (Star g r) s1 c1 s2 c2 ->
    Matches (Star g r) s c s2 c2
| MGroup i r s c s1 c1 :
    Matches r s c s1 c1 -> Matches (Group i r) s c s1 (<[i := consumed s s1]> c1)
| MEndText c : Matches EndText "" c "" c.

Lemma orElse_Some {R} (a b : option R) (x : R) :
  orElse a b = Some x -> a = Some x \/ b = Some x.
Proof. destruct a; cbn; intros E; auto. Qed.

(** An answer of the matcher comes from a match of the expression followed
    by an answer of the continuation. *)
Lemma run_sound {R} (r : regex) :
  forall (s : string) (c : captures) (k : string -> captures -> option R) (x : R),
    run r s c k = Some x ->
    exists s1 c1, Matches r s c s1 c1 /\ k s1 c1 = Some x.
Proof.
  induction r as [| p | r1 IH1 r2 IH2 | g r1 IH1 | g r1 IH1 | i r1 IH1 |];
    intros s c k x Hrun; cbn [run] in Hrun.
  - eauto using Matches.
  - destruct s as [| a s]; [discriminate |].
    destruct (p a) eqn:Hp; [| discriminate]. eauto using Matches.
  - apply IH1 in Hrun as (s1 & c1 & M1 & Hrun).
    apply IH2 in Hrun as (s2 & c2 & M2 & Hk). eauto using Matches.
  - destruct g; apply orElse_Some in Hrun as [Hrun | Hrun];
      try (apply IH1 in Hrun as (s1 & c1 & M1 & Hk)); eauto using Matches.
  - remember (String.length s) as fuel eqn:Hfuel. clear Hfuel.
    revert s c Hrun. induction fuel as [| fuel IHf]; intros s c Hrun;
      cbn [loop] in Hrun.
    + eauto using Matches.
    + assert (Hagain :
        run r1 s c (fun s1 c1 =>
          if (String.length s1 <? String.length s)%nat
          then loop (run r1) g k fuel s1 c1 else None) = Some x ->
        exists s1 c1, Matches (Star g r1) s c s1 c1 /\ k s1 c1 = Some x).
      { intros Ha. apply IH1 in Ha as (s1 & c1 & M1 & Ha).
        destruct (String.length s1 <? String.length s)%nat; [| discriminate].
        apply IHf in Ha as (s2 & c2 & M2 & Hk). eauto using Matches. }
      cbv zeta in Hrun.
      destruct g; apply orElse_Some in Hrun as [Hrun | Hrun];
        eauto using Matches.
  - apply IH1 in Hrun as (s1 & c1 & M1 & Hk). eauto using Matches.
  - destruct s; [| discriminate]. eauto using Matches.
Qed.

Lemma Matches_Lit (l s : string) c s1 c1 :
  Matches (Lit l) s c s1 c1 -> s = (l ++ s1)%string /\ c1 = c.
Proof.
  revert s c. induction l as [| a l IH]; intros s c M; cbn in M.
  - inversion M; subst. auto.
  - inversion M as [| | ? ? ? ? s' c' ? ? M1 M2 | | | | | |]; subst.
    inversion M1; subst. apply IH in M2 as [-> ->].
    match goal with Ha : Ascii.eqb _ _ = true |- _ => apply Ascii.eqb_eq in Ha; subst end.
    auto.
Qed.

Lemma Matches_Star_Class g p s c s1 c1 :
  Matches (Star g (Class p)) s c s1 c1 ->
  exists m, s = (m ++ s1)%string /\ allChars p m = true /\ c1 = c.
Proof.
  intros M. remember (Star g (Class p)) as r eqn:Hr.
  induction M as [| | | | | g' r' s c | g' r' s c s1 c1 s2 c2 M1 _ M2 IH | |];
    try discriminate; injection Hr as -> ->.
  - exists ""%string. auto.
  - destruct (IH eq_refl) as (m & -> & Hm & ->).
    inversion M1; subst. exists (String a m). cbn.
    match goal with Hp : p a = true |- _ => rewrite Hp end. auto.
Qed.

Lemma Matches_Plus_Class g p s c s1 c1 :
  Matches (Plus g (Class p)) s c s1 c1 ->
  exists m, s = (m ++ s1)%string /\ m <> ""%string /\ allChars p m = true /\ c1 = c.
Proof.
  unfold Plus. intros M.
  inversion M as [| | ? ? ? ? s' c' ? ? M1 M2 | | | | | |]; subst.
  inversion M1; subst.
  apply Matches_Star_Class in M2 as (m & -> & Hm & ->).
  exists (String a m). cbn.
  match goal with Hp : p a = true |- _ => rewrite Hp end.
  repeat split; auto; discriminate.
Qed.

Lemma consumed_append (m s1 : string) : consumed (m ++ s1) s1 = m.
Proof.
  unfold consumed. rewrite length_append.
  replace (String.length m + String.length s1 - String.length s1)
    with (String.length m) by lia.
  apply substring_prefix.
Qed.

Lemma find_sound (r : regex) (s : string) (c : captures) :
  find r s = Some c ->
  exists pre s', s = (pre ++ s')%string /\ matchHere r s' = Some c.
Proof.
  induction s as [| a s IH]; cbn [find]; intros Hf.
  - destruct (matchHere r "") eqn:Hm; [| discriminate].
    exists ""%string, ""%string. split; [reflexivity | congruence].
  - destruct (matchHere r (String a s)) eqn:Hm.
    + exists ""%string, (String a s). split; [reflexivity | congruence].
    + apply IH in Hf as (pre & s' & -> & Hm'). exists (String a pre), s'. auto.
Qed.

(** *** The match of a text of the expected form *)

Lemma run_Cat {R} (r1 r2 : regex) s c (k : string -> captures -> option R) :
  run (Cat r1 r2) s c k = run r1 s c (fun s1 c1 => run r2 s1 c1 k).
Proof. reflexivity. Qed.

Lemma run_Group {R} (i : nat) (r : regex) s c (k : string -> captures -> option R) :
  run (Group i r) s c k = run r s c (fun s1 c1 => k s1 (<[i := consumed s s1]> c1)).
Proof. reflexivity. Qed.

Lemma run_Lit {R} (l s : string) c (k : string -> captures -> option R) :
  run (Lit l) (l ++ s) c k = k s c.
Proof.
  induction l as [| a l IH]; [reflexivity |].
  rewrite append_cons. cbn [Lit]. rewrite run_Cat. cbn [run].
  rewrite Ascii.eqb_refl. exact IH.
Qed.

(** The text [s] does not go on with a character of the class [p]. *)
Definition stops (p : ascii -> bool) (s : string) : Prop :=
  match s with
  | EmptyString => True
  | String a _ => p a = false
  end.

Lemma run_Class_stops {R} p s c (k : string -> captures -> option R) :
  stops p s -> run (Class p) s c k = None.
Proof. destruct s as [| a s]; cbn; [reflexivity | intros ->; reflexivity]. Qed.

(** A greedy repetition of a class reads the whole run of the class when the
    continuation accepts what follows. *)
Lemma loop_greedy_class {R} p (k : string -> captures -> option R) (x : R)
    (s1 : string) (c : captures) :
  stops p s1 -> k s1 c = Some x ->
  forall (m : string) (fuel : nat),
    allChars p m = true -> String.length m <= fuel ->
    loop (run (Class p)) true k fuel (m ++ s1) c = Some x.
Proof.
  intros Hstop Hk. induction m as [| a m IH]; intros fuel Hm Hfuel.
  - rewrite append_nil_l. destruct fuel; cbn [loop]; [exact Hk |].
    rewrite run_Class_stops by exact Hstop. exact Hk.
  - cbn in Hm. apply andb_true_iff in Hm as [Ha Hm].
    destruct fuel as [| fuel]; [cbn in Hfuel; lia |].
    rewrite append_cons. cbn [loop run]. rewrite Ha. cbn [String.length].
    rewrite (proj2 (Nat.ltb_lt _ _)) by lia.
    rewrite IH; [reflexivity | exact Hm | cbn in Hfuel; lia].
Qed.

(** A lazy repetition of a class stops at the first place where the
    continuation accepts what follows. *)
Lemma loop_lazy_class {R} p (k : string -> captures -> option R) (x : R)
    (s1 : string) (c : captures) :
  k s1 c = Some x ->
  forall (m : string) (fuel : nat),
    allChars p m = true -> String.length m <= fuel ->
    (forall m1 m2, m = (m1 ++ m2)%string -> m2 <> ""%string ->
                   k (m2 ++ s1)%string c = None) ->
    loop (run (Class p)) false k fuel (m ++ s1) c = Some x.
Proof.
  intros Hk. induction m as [| a m IH]; intros fuel Hm Hfuel Hfail.
  - rewrite append_nil_l. destruct fuel; cbn [loop]; rewrite ?Hk; reflexivity.
  - cbn in Hm. apply andb_true_iff in Hm as [Ha Hm].
    destruct fuel as [| fuel]; [cbn in Hfuel; lia |].
    cbn [loop]. rewrite (Hfail ""%string (String a m) eq_refl) by discriminate.
    rewrite append_cons. cbn [orElse run]. rewrite Ha. cbn [String.length].
    rewrite (proj2 (Nat.ltb_lt _ _)) by lia.
    apply IH; [exact Hm | cbn in Hfuel; lia |].
    intros m1 m2 -> Hm2. apply (Hfail (String a m1) m2); [reflexivity | exact Hm2].
Qed.

Lemma run_Plus_greedy {R} p (k : string -> captures -> option R) (x : R)
    (m s1 : string) (c : captures) :
  m <> ""%string -> allChars p m = true -> stops p s1 -> k s1 c = Some x ->
  run (Plus true (Class p)) (m ++ s1) c k = Some x.
Proof.
  intros Hne Hm Hstop Hk. destruct m as [| a m]; [contradiction |].
  cbn in Hm. apply andb_true_iff in Hm as [Ha Hm].
  unfold Plus. rewrite run_Cat, append_cons. cbn [run]. rewrite Ha.
  apply loop_greedy_class; auto. rewrite length_append. lia.
Qed.

Lemma run_Plus_lazy {R} p (k : string -> captures -> option R) (x : R)
    (m s1 : string) (c : captures) :
  m <> ""%string -> allChars p m = true ->
  (forall m1 m2, m = (m1 ++ m2)%string -> m1 <> ""%string -> m2 <> ""%string ->
                 k (m2 ++ s1)%string c = None) ->
  k s1 c = Some x ->
  run (Plus false (Class p)) (m ++ s1) c k = Some x.
Proof.
  intros Hne Hm Hfail Hk. destruct m as [| a m]; [contradiction |].
  cbn in Hm. apply andb_true_iff in Hm as [Ha Hm].
  unfold Plus. rewrite run_Cat, append_cons. cbn [run]. rewrite Ha.
  apply loop_lazy_class; auto; [rewrite length_append; lia |].
  intros m1 m2 -> Hm2. apply (Hfail (String a m1) m2); [reflexivity | discriminate | exact Hm2].
Qed.

Lemma find_here (r : regex) (s : string) (c : captures) :
  matchHere r s = Some c -> find r s = Some c.
Proof. intros Hm. destruct s; cbn [find]; rewrite Hm; reflexivity. Qed.

End regexp_facts.

(** ** The remote URL *)

Lemma prefix_append (a b : string) : String.prefix a (a ++ b) = true.
Proof. apply prefix_correct, substring_prefix. Qed.

(** The text [t] occurs in [s]. *)
Fixpoint containsText (t s : string) : bool :=
  String.prefix t s
  || match s with
     | EmptyString => false
     | String _ s' => containsText t s'
     end.

Lemma containsText_append (t pre post : string) :
  containsText t (pre ++ t ++ post) = true.
Proof.
  induction pre as [| a pre IH].
  - rewrite append_nil_l. destruct (t ++ post)%string eqn:E; cbn [containsText];
      rewrite <- E, prefix_append; reflexivity.
  - rewrite append_cons. cbn [containsText]. rewrite IH. apply orb_true_r.
Qed.

Section RemoteURL.

Context `{GoLib}.

Import regexp regexp_facts.

(** A match of the SSH pattern: some text, then [git@github.com:], an owner
    without slash, a slash, a name on one line, and [.git] or nothing up to
    the end of the URL.  The owner and the name are not empty. *)
Lemma sshPattern_sound (remoteURL : string) (matches : captures) :
  find sshPattern remoteURL = Some matches ->
  exists pre owner name tail,
    remoteURL = (pre ++ "git@github.com:" ++ owner ++ "/" ++ name ++ tail)%string
    /\ (tail = ""%string \/ tail = ".git"%string)
    /\ owner <> ""%string /\ allChars notSlash owner = true
    /\ name <> ""%string /\ allChars anyChar name = true
    /\ submatch matches 1 = owner /\ submatch matches 2 = name.
Proof.
  intros Hf. apply find_sound in Hf as (pre & s & -> & Hm).
  unfold matchHere in Hm. apply run_sound in Hm as (s1 & c1 & M & Hk).
  injection Hk as ->. unfold sshPattern in M.
  inversion M as [| | ? ? ? ? sA cA ? ? MA M2 | | | | | |]; subst. clear M.
  apply (Matches_Lit "git@github.com:") in MA as [-> ->].
  inversion M2 as [| | ? ? ? ? sB cB ? ? MB M3 | | | | | |]; subst. clear M2.
  inversion MB as [| | | | | | | ? ? ? ? ? cB' MB' |]; subst. clear MB.
  apply (Matches_Plus_Class true notSlash) in MB' as (owner & -> & Howner & Hslash & ->).
  rewrite consumed_append in M3.
  inversion M3 as [| | ? ? ? ? sC cC ? ? MC M4 | | | | | |]; subst. clear M3.
  apply (Matches_Lit "/") in MC as [-> ->].
  inversion M4 as [| | ? ? ? ? sD cD ? ? MD M5 | | | | | |]; subst. clear M4.
  inversion MD as [| | | | | | | ? ? ? ? ? cD' MD' |]; subst. clear MD.
  apply (Matches_Plus_Class false anyChar) in MD' as (name & -> & Hname & Hline & ->).
  rewrite consumed_append in M5.
  inversion M5 as [| | ? ? ? ? sE cE ? ? ME M6 | | | | | |]; subst. clear M5.
  inversion M6; subst. clear M6.
  exists pre, owner, name.
  assert (Hcaps : submatch (<[2 := name]> (<[1 := owner]> ∅)) 1 = owner
                  /\ submatch (<[2 := name]> (<[1 := owner]> ∅)) 2 = name).
  { unfold submatch. rewrite lookup_insert_ne by discriminate.
    rewrite !lookup_insert_eq. split; reflexivity. }
  inversion ME as [| | | ? ? ? ? | ? ? ? ? ? ? ME' | | | |]; subst.
  - exists ""%string. rewrite append_nil_r. tauto.
  - apply (Matches_Lit ".git") in ME' as [E ->]. exists ".git"%string. rewrite E. tauto.
Qed.

(** What follows the name: [(?:\.git)?$] accepts the empty text and [.git],
    and nothing else. *)
Definition suffixAndEnd : regex := Cat (Opt true (Lit ".git")) EndText.

Lemma suffixAndEnd_accepts (s : string) (c : captures) :
  s = ""%string \/ s = ".git"%string ->
  run suffixAndEnd s c (fun _ c1 => Some c1) = Some c.
Proof. intros [-> | ->]; reflexivity. Qed.

Lemma suffixAndEnd_rejects (s : string) (c : captures) :
  s <> ""%string -> s <> ".git"%string ->
  run suffixAndEnd s c (fun _ c1 => Some c1) = None.
Proof.
  intros Hne Hgit.
  destruct (run suffixAndEnd s c (fun _ c1 => Some c1)) as [c1 |] eqn:E;
    [| reflexivity].
  exfalso. apply run_sound in E as (s1 & c2 & M & _). unfold suffixAndEnd in M.
  inversion M as [| | ? ? ? ? sE cE ? ? ME M6 | | | | | |]; subst.
  inversion M6; subst.
  inversion ME as [| | | ? ? ? ? | ? ? ? ? ? ? ME' | | | |]; subst.
  - apply Hne. reflexivity.
  - apply (Matches_Lit ".git") in ME' as [E _]. apply Hgit.
    rewrite E. reflexivity.
Qed.

(** The SSH pattern matches a URL of the expected form at its first byte, and
    captures the owner and the shortest name that leaves [.git] or nothing. *)
Lemma sshPattern_match (owner name tail : string) :
  owner <> ""%string -> allChars notSlash owner = true ->
  name <> ""%string -> allChars anyChar name = true ->
  tail = ""%string \/ tail = ".git"%string ->
  (forall n1 n2, name = (n1 ++ n2)%string -> n1 <> ""%string -> n2 <> ""%string ->
                 (n2 ++ tail)%string <> ".git"%string) ->
  find sshPattern ("git@github.com:" ++ owner ++ "/" ++ name ++ tail)
  = Some (<[2 := name]> (<[1 := owner]> ∅)).
Proof.
  intros Ho Hslash Hn Hline Htail Hmin. apply find_here.
  unfold matchHere, sshPattern. cbv zeta.
  rewrite run_Cat, run_Lit, run_Cat, run_Group.
  apply run_Plus_greedy; [exact Ho | exact Hslash | reflexivity |].
  rewrite consumed_append, run_Cat, run_Lit, run_Cat, run_Group.
  fold suffixAndEnd.
  apply run_Plus_lazy; [exact Hn | exact Hline | |].
  - intros n1 n2 -> Hn1 Hn2. apply suffixAndEnd_rejects.
    + destruct n2; [contradiction | discriminate].
    + apply (Hmin n1 n2); auto.
  - rewrite consumed_append. apply suffixAndEnd_accepts. exact Htail.
Qed.

Lemma submatch_owner_name (owner name : string) :
  submatch (<[2 := name]> (<[1 := owner]> ∅)) 1 = owner
  /\ submatch (<[2 := name]> (<[1 := owner]> ∅)) 2 = name.
Proof.
  unfold submatch. rewrite lookup_insert_ne by discriminate.
  rewrite !lookup_insert_eq. split; reflexivity.
Qed.

Lemma append_not_suffix (n suffix : string) :
  n <> ""%string -> (n ++ suffix)%string <> suffix.
Proof.
  intros Hn E. apply (f_equal String.length) in E. rewrite length_append in E.
  destruct n; [contradiction | cbn in E; lia].
Qed.

(** A URL without the text [git@github.com:] is not matched by the SSH
    pattern. *)
Lemma sshPattern_needs_literal (remoteURL : string) :
  containsText "git@github.com:" remoteURL = false ->
  regexp.find sshPattern remoteURL = None.
Proof.
  intros Hno. destruct (regexp.find sshPattern remoteURL) as [m |] eqn:Hf;
    [| reflexivity].
  apply sshPattern_sound in Hf as (pre & owner & name & tail & E & _).
  rewrite E, containsText_append in Hno. discriminate.
Qed.

(** C2, as the program has it.  For a URL of the SSH form, [git@github.com:]
    followed by an owner, a slash, a name and [.git] or nothing, the owner
    being non-empty and without slash and the name non-empty, on one line
    and not itself ending in [.git]: the parser returns the owner and the
    name, whatever slashes the name has, and the owner is the first piece
    [findPRForBranch] splits off.  For a URL without the text
    [git@github.com:] the parser fails unless the URL parses with the host
    [github.com]; with that host it returns what the path is without its
    leading slash and one suffix [.git], whatever the number of segments. *)
Theorem parseGitHubRepo_spec (remoteURL : string) :
  (forall owner name tail : string,
     remoteURL = ("git@github.com:" ++ owner ++ "/" ++ name ++ tail)%string ->
     tail = ""%string \/ tail = ".git"%string ->
     owner <> ""%string -> allChars notSlash owner = true ->
     name <> ""%string -> allChars anyChar name = true ->
     strings.HasSuffix name ".git" = false ->
     parseGitHubRepo remoteURL = OK (owner ++ "/" ++ name)%string
     /\ strings.SplitN2 (owner ++ "/" ++ name) "/" = [owner; name])
  /\ (containsText "git@github.com:" remoteURL = false ->
      match url_Parse remoteURL with
      | OK u =>
          if String.eqb (Host u) "github.com" then
            parseGitHubRepo remoteURL
            = OK (strings.TrimSuffix (strings.TrimPrefix (Path u) "/") ".git")
          else
            parseGitHubRepo remoteURL
            = Err ("could not parse GitHub repo from URL: " ++ remoteURL)
      | Err _ =>
          parseGitHubRepo remoteURL
          = Err ("could not parse GitHub repo from URL: " ++ remoteURL)
      end).
Proof.
  split.
  - intros owner name tail -> Htail Ho Hslash Hn Hline Hsuf. split.
    + unfold parseGitHubRepo.
      rewrite (sshPattern_match owner name tail Ho Hslash Hn Hline Htail).
      * cbv beta iota. destruct (submatch_owner_name owner name) as [-> ->].
        unfold strings.TrimSuffix. rewrite Hsuf. reflexivity.
      * intros n1 n2 -> Hn1 Hn2 E. destruct Htail as [-> | ->].
        -- rewrite append_nil_r in E. subst n2.
           rewrite HasSuffix_append in Hsuf. discriminate.
        -- exact (append_not_suffix n2 ".git" Hn2 E).
    + unfold strings.SplitN2.
      change ("/" ++ name)%string with (String "/" name).
      rewrite CutByte_first; [reflexivity | exact Hslash].
  - intros Hno. apply sshPattern_needs_literal in Hno.
    unfold parseGitHubRepo. rewrite Hno.
    destruct (url_Parse remoteURL) as [u | err]; [| reflexivity].
    destruct (String.eqb (Host u) "github.com"); reflexivity.
Qed.

(** C3, where the program departs from it.  The SSH pattern already leaves
    one suffix [.git] out of the name it captures, and [TrimSuffix] then
    removes a second one: the repository [name.git] of [owner] parses to
    [owner/name]. *)
Theorem ssh_suffix_stripped_twice :
  regexp.submatch
    (default ∅ (find sshPattern "git@github.com:owner/name.git.git")) 2
  = "name.git"%string
  /\ parseGitHubRepo "git@github.com:owner/name.git.git" = OK "owner/name"%string.
Proof. split; reflexivity. Qed.

(** C3, in general.  For an owner without slash and a repository name on one
    line: the URL with the suffix [.git] parses to the owner and the name
    with one more [.git] removed, so a name that itself ends in [.git] loses
    it; and a name that does not end in [.git] parses to itself, with or
    without the suffix in the URL. *)
Theorem ssh_url_parse (owner repo : string) :
  owner <> ""%string -> allChars notSlash owner = true ->
  repo <> ""%string -> allChars anyChar repo = true ->
  parseGitHubRepo ("git@github.com:" ++ owner ++ "/" ++ repo ++ ".git")
  = OK (owner ++ "/" ++ strings.TrimSuffix repo ".git")%string
  /\ (forall name, repo = (name ++ ".git")%string ->
        parseGitHubRepo ("git@github.com:" ++ owner ++ "/" ++ repo ++ ".git")
        = OK (owner ++ "/" ++ name)%string)
  /\ (strings.HasSuffix repo ".git" = false ->
        parseGitHubRepo ("git@github.com:" ++ owner ++ "/" ++ repo ++ ".git")
        = OK (owner ++ "/" ++ repo)%string
        /\ parseGitHubRepo ("git@github.com:" ++ owner ++ "/" ++ repo)
           = OK (owner ++ "/" ++ repo)%string).
Proof.
  intros Ho Hslash Hr Hline.
  assert (Hgit : parseGitHubRepo ("git@github.com:" ++ owner ++ "/" ++ repo ++ ".git")
                 = OK (owner ++ "/" ++ strings.TrimSuffix repo ".git")%string).
  { unfold parseGitHubRepo.
    rewrite (sshPattern_match owner repo ".git");
      [ cbv beta iota; destruct (submatch_owner_name owner repo) as [-> ->];
        reflexivity
      | assumption | assumption | assumption | assumption
      | right; reflexivity
      | intros n1 n2 _ _ Hn2; apply append_not_suffix, Hn2 ]. }
  split; [exact Hgit |]. split.
  - intros name ->. rewrite Hgit, TrimSuffix_append. reflexivity.
  - intros Hsuf.
    assert (Htrim : strings.TrimSuffix repo ".git" = repo)
      by (unfold strings.TrimSuffix; rewrite Hsuf; reflexivity).
    split; [rewrite Hgit, Htrim; reflexivity |].
    unfold parseGitHubRepo.
    replace repo with (repo ++ "")%string at 1 by apply append_nil_r.
    rewrite (sshPattern_match owner repo "");
      [ cbv beta iota; destruct (submatch_owner_name owner repo) as [-> ->];
        rewrite Htrim; reflexivity
      | assumption | assumption | assumption | assumption
      | left; reflexivity |].
    intros n1 n2 -> _ _ E. rewrite append_nil_r in E. subst n2.
    rewrite HasSuffix_append in Hsuf. discriminate.
Qed.

End RemoteURL.

(** ** The head ref of a pull request is never used

    Two runs are compared whose lookups are answered alike except for the
    head ref of the first pull request of a successful answer. *)

Definition sameButHeadRef (p1 p2 : apiPullRequest) : Prop :=
  api_Number p1 = api_Number p2
  /\ api_State p1 = api_State p2
  /\ api_MergedAt p1 = api_MergedAt p2.

(** What the driver reads of the result of a lookup. *)
Definition samePullRequest (r1 r2 : result (option PullRequest)) : Prop :=
  r1 = r2
  \/ exists pr1 pr2,
       r1 = OK (Some pr1) /\ r2 = OK (Some pr2)
       /\ Number pr1 = Number pr2 /\ State pr1 = State pr2
       /\ MergedAt pr1 = MergedAt pr2.

(** A request without its answer. *)
Inductive Observation : Type :=
| ObsPrint (f : Stream) (text : string)
| ObsCall {X : Type} (e : Eff X).

Definition observe (ev : Event) : Observation :=
  match ev with
  | EvPrint f text => ObsPrint f text
  | EvCall e _ => ObsCall e
  end.

Section HeadRef.

Context `{GoLib}.

(** Two successful answers of the API whose first pull requests differ at
    most in the head ref, or the same answer twice. *)
Definition sameLookup (r1 r2 : result HttpResponse) : Prop :=
  r1 = r2
  \/ exists resp1 resp2 p1 p2 rest,
       r1 = OK resp1 /\ r2 = OK resp2
       /\ StatusCode resp1 = 200%Z /\ StatusCode resp2 = 200%Z
       /\ BodyErr resp1 = None /\ BodyErr resp2 = None
       /\ json_Unmarshal (Body resp1) = OK (p1 :: rest)
       /\ json_Unmarshal (Body resp2) = OK (p2 :: rest)
       /\ sameButHeadRef p1 p2.

(** Two answers to a request that count as the same. *)
Definition agree {X} (e : Eff X) : X -> X -> Prop :=
  match e in Eff X return X -> X -> Prop with
  | HttpDo _ _ _ => sameLookup
  | _ => eq
  end.

(** [similar RA p1 p2]: given answers that agree, [p1] and [p2] print the
    same text, make the same requests and end the same way, with results
    related by [RA]. *)
Inductive similar {A} (RA : A -> A -> Prop) : Prog A -> Prog A -> Prop :=
| similar_ret a1 a2 : RA a1 a2 -> similar RA (Ret a1) (Ret a2)
| similar_exit code : similar RA (Exit code) (Exit code)
| similar_print f text k1 k2 :
    similar RA k1 k2 -> similar RA (Print f text k1) (Print f text k2)
| similar_vis X (e : Eff X) k1 k2 :
    (forall x1 x2, agree e x1 x2 -> similar RA (k1 x1) (k2 x2)) ->
    similar RA (Vis e k1) (Vis e k2).

Lemma similar_bind {A B} (RA : A -> A -> Prop) (RB : B -> B -> Prop)
    (p1 p2 : Prog A) (f1 f2 : A -> Prog B) :
  similar RA p1 p2 ->
  (forall a1 a2, RA a1 a2 -> similar RB (f1 a1) (f2 a2)) ->
  similar RB (bind p1 f1) (bind p2 f2).
Proof.
  intros Hp Hf. induction Hp as [a1 a2 Ha | code | f text k1 k2 _ IH | X e k1 k2 _ IH];
    cbn [bind].
  - apply Hf, Ha.
  - constructor.
  - constructor. exact IH.
  - constructor. intros x1 x2 Hx. apply IH, Hx.
Qed.

(** A program that makes no HTTP request is similar to itself. *)
Lemma similar_refl {A} (p : Prog A) :
  always (fun _ => True) notHttp p -> similar eq p p.
Proof.
  induction p as [a | code | f text k IH | X e k IH]; cbn [always]; intros Hp.
  - constructor. reflexivity.
  - constructor.
  - constructor. apply IH, Hp.
  - destruct Hp as [He Hk]. constructor. intros x1 x2 Hx.
    assert (x1 = x2) as -> by (destruct e; try exact Hx; contradiction).
    apply IH, Hk.
Qed.

Lemma similar_refl_lookup (p : Prog (result (option PullRequest))) :
  always (fun _ => True) notHttp p -> similar samePullRequest p p.
Proof.
  induction p as [a | code | f text k IH | X e k IH]; cbn [always]; intros Hp.
  - constructor. left. reflexivity.
  - constructor.
  - constructor. apply IH, Hp.
  - destruct Hp as [He Hk]. constructor. intros x1 x2 Hx.
    assert (x1 = x2) as -> by (destruct e; try exact Hx; contradiction).
    apply IH, Hk.
Qed.

Lemma similar_findPRForBranch repo branch token :
  similar samePullRequest (findPRForBranch repo branch token)
                          (findPRForBranch repo branch token).
Proof.
  unfold findPRForBranch.
  destruct (strings.SplitN2 repo "/") as [| owner [| name [| ? ?]]];
    try (constructor; left; reflexivity).
  destruct (url_Parse _) as [u | err]; [| constructor; left; reflexivity].
  cbn [call bind]. constructor. intros r1 r2 [-> | Hr].
  - apply similar_refl_lookup.
    destruct r2 as [resp | err]; [| exact I].
    destruct (negb (StatusCode resp =? 200)%Z); [exact I |].
    destruct (BodyErr resp); [exact I |].
    destruct (json_Unmarshal (Body resp)) as [[| pr0 prs] | err]; exact I.
  - destruct Hr as (resp1 & resp2 & p1 & p2 & rest & -> & -> & S1 & S2 & B1 & B2
                    & J1 & J2 & Hn & Hs & Hm).
    rewrite S1, S2, B1, B2, J1, J2. cbn.
    constructor. right. eexists _, _. repeat split; cbn; auto.
Qed.

Lemma similar_main_check repo token branches toDelete :
  similar eq (main_check repo token branches toDelete)
             (main_check repo token branches toDelete).
Proof.
  revert toDelete. induction branches as [| branch rest IH]; intros toDelete.
  - constructor. reflexivity.
  - cbn [main_check].
    apply (similar_bind samePullRequest); [apply similar_findPRForBranch |].
    intros r1 r2 [-> | (pr1 & pr2 & -> & -> & Hn & Hs & Hm)].
    + destruct r2 as [[pr |] | err]; [destruct (nonEmpty (MergedAt pr)) |..];
        cbn [Printf bind]; constructor; apply IH.
    + rewrite Hn, Hs, Hm. destruct (nonEmpty (MergedAt pr2));
        cbn [Printf bind]; constructor; apply IH.
Qed.

Lemma main_delete_notHttp dryRun toDelete :
  always (fun _ => True) notHttp (main_delete dryRun toDelete).
Proof.
  induction toDelete as [| branch rest IH]; [exact I |].
  cbn [main_delete]. destruct dryRun; crunch_always; apply IH.
Qed.

Lemma similar_main (args : list string) : similar eq (main args) (main args).
Proof.
  unfold main. rewrite main_args_spec.
  destruct (existsb isHelpFlag args); [apply similar_refl; exact I |].
  cbn [bind orb].
  apply (similar_bind eq).
  { apply similar_refl. unfold getLocalBranches. crunch_always. }
  intros found ? <-. destruct found as [branches [err |]];
    [apply similar_refl; exact I |].
  destruct (length branches =? 0)%nat; [apply similar_refl; exact I |].
  cbn [Printf bind]. constructor.
  apply (similar_bind eq).
  { apply similar_refl. unfold getGitHubToken. crunch_always. }
  intros token ? <-. destruct token as [token | err];
    [| apply similar_refl; exact I].
  apply (similar_bind eq).
  { apply similar_refl. unfold getRepoName. crunch_always. }
  intros repo ? <-. destruct repo as [repo | err];
    [| apply similar_refl; exact I].
  apply (similar_bind eq); [apply similar_main_check |].
  intros toDelete ? <-.
  destruct (length toDelete =? 0)%nat; [apply similar_refl; exact I |].
  cbn [Printf bind]. constructor. apply similar_refl, main_delete_notHttp.
Qed.

(** The branch a request deletes can be read off the request. *)
Definition deleteObserved (o : Observation) : option string :=
  match o with
  | ObsCall (CmdRun name [a1; a2; branch]) =>
      if String.eqb name "git" && String.eqb a1 "branch" && String.eqb a2 "-D"
      then Some branch else None
  | _ => None
  end.

Lemma deletions_observe (log : list Event) :
  deletions log = omap deleteObserved (map observe log).
Proof.
  unfold deletions. induction log as [| ev log IH]; [reflexivity |].
  cbn [map omap list_omap]. fold (omap deleteRequest log).
  fold (omap deleteObserved (map observe log)). rewrite IH.
  destruct ev as [f text | X e x]; [reflexivity |].
  destruct e; reflexivity.
Qed.

Definition sameOutcome {A} (RA : A -> A -> Prop) (o1 o2 : Outcome A) : Prop :=
  match o1, o2 with
  | Returned a1, Returned a2 => RA a1 a2
  | Exited c1, Exited c2 => c1 = c2
  | _, _ => False
  end.

(** Two worlds, related by [R], that answer every request alike, up to the
    head ref of the first pull request of a successful lookup. *)
Definition simulation {W1 W2} (h1 : Handler W1) (h2 : Handler W2)
    (R : W1 -> W2 -> Prop) : Prop :=
  forall w1 w2, R w1 w2 ->
  forall X (e : Eff X),
    agree e (handle h1 e w1).1 (handle h2 e w2).1
    /\ R (handle h1 e w1).2 (handle h2 e w2).2.

Lemma similar_run {W1 W2 A} (h1 : Handler W1) (h2 : Handler W2)
    (R : W1 -> W2 -> Prop) (RA : A -> A -> Prop) (p1 p2 : Prog A) :
  simulation h1 h2 R -> similar RA p1 p2 ->
  forall w1 w2, R w1 w2 ->
    sameOutcome RA (run h1 p1 w1).1.1 (run h2 p2 w2).1.1
    /\ R (run h1 p1 w1).1.2 (run h2 p2 w2).1.2
    /\ map observe (run h1 p1 w1).2 = map observe (run h2 p2 w2).2.
Proof.
  intros Hsim Hp.
  induction Hp as [a1 a2 Ha | code | f text k1 k2 _ IH | X e k1 k2 _ IH];
    intros w1 w2 Hw; cbn [run].
  - cbn. auto.
  - cbn. auto.
  - specialize (IH w1 w2 Hw).
    destruct (run h1 k1 w1) as [[o1 w1'] l1], (run h2 k2 w2) as [[o2 w2'] l2].
    cbn in *. destruct IH as (Ho & HR & Hl). rewrite Hl. auto.
  - destruct (Hsim w1 w2 Hw X e) as [Hx HR].
    destruct (handle h1 e w1) as [x1 w1'], (handle h2 e w2) as [x2 w2'].
    cbn in Hx, HR. specialize (IH x1 x2 Hx w1' w2' HR).
    destruct (run h1 (k1 x1) w1') as [[o1 w1''] l1],
             (run h2 (k2 x2) w2') as [[o2 w2''] l2].
    cbn in *. destruct IH as (Ho & HR' & Hl). rewrite Hl. auto.
Qed.

(** C10.  The program reads the number, the state and the merge time of a
    pull request, never its head ref.  In two worlds that answer alike
    except for the head ref of the first pull request of successful
    lookups, the loop over the branches returns the same delete set, and
    [main] prints the same text, makes the same requests, the deletions
    among them, and ends the same way. *)
Theorem head_ref_never_read (args : list string) :
  similar eq (main args) (main args)
  /\ (forall W1 W2 (h1 : Handler W1) (h2 : Handler W2) (R : W1 -> W2 -> Prop),
        simulation h1 h2 R ->
        forall w1 w2, R w1 w2 ->
          (forall repo token branches,
              (run h1 (main_check repo token branches []) w1).1.1
              = (run h2 (main_check repo token branches []) w2).1.1)
          /\ (run h1 (main args) w1).1.1 = (run h2 (main args) w2).1.1
          /\ map observe (run h1 (main args) w1).2
             = map observe (run h2 (main args) w2).2
          /\ deletions (run h1 (main args) w1).2
             = deletions (run h2 (main args) w2).2).
Proof.
  split; [apply similar_main |].
  intros W1 W2 h1 h2 R Hsim w1 w2 Hw.
  assert (Heq : forall A (o1 o2 : Outcome A), sameOutcome eq o1 o2 -> o1 = o2).
  { intros A [a1 | c1] [a2 | c2]; cbn; intros E; congruence || contradiction. }
  split.
  { intros repo token branches. apply Heq.
    apply (similar_run h1 h2 R eq _ _ Hsim (similar_main_check _ _ _ _) w1 w2 Hw). }
  destruct (similar_run h1 h2 R eq _ _ Hsim (similar_main args) w1 w2 Hw)
    as (Ho & _ & Hl).
  split; [apply Heq, Ho |]. split; [exact Hl |].
  rewrite !deletions_observe, Hl. reflexivity.
Qed.

End HeadRef.

(** * Runs in the simulated world *)

Module Examples.

Import Sim.

(** The scenario of the specification: [feature/a] is merged, [feature/b]
    has no pull request (and [feature/c] an open one).  One deletion, of
    [feature/a]; status 0. *)
Example run_checkout :
  deletions (run handler (main []) checkout).2 = ["feature/a"]
  /\ deleted (run handler (main []) checkout).1.2 = ["feature/a"]
  /\ exitStatus (run handler (main []) checkout).1.1 = 0%Z.
Proof. repeat split; reflexivity. Qed.


(** A checkout with no branch but [main], no token anywhere and no remote. *)
Definition bare : World := {|
  env := [];
  home := Err "$HOME is not defined";
  files := [];
  keyring := Err "secret not found in keyring";
  branchList := OK ("main" ++ nl);
  remote := Err "exit status 2";
  api := [];
  locked := [];
  deleted := []
|}.

Definition listing (output : result string) : Event :=
  EvCall (CmdOutput "git" ["branch"; "--format=%(refname:short)"]) output.

(** C8 in the bare checkout: the token and the repository name could not be
    resolved there, and the run ends with status 0 all the same. *)
Lemma empty_discovery_witness :
  (run handler getGitHubToken bare).1.1
    = Returned (Err "could not find home directory: $HOME is not defined")
  /\ (run handler getRepoName bare).1.1
     = Returned (Err "failed to get remote URL: exit status 2")
  /\ run handler (main []) bare =
     (Returned tt, bare,
      [listing (OK ("main" ++ nl));
       printed ("No branches to check (only main exists)" ++ nl)])
  /\ exitStatus (run handler (main []) bare).1.1 = 0%Z
  /\ existsb isResolution (run handler (main []) bare).2 = false
  /\ length (run handler (main []) bare).2 = 2.
Proof.
  split; [reflexivity |]. split; [reflexivity |].
  exact (empty_discovery_exits_early handler [] bare bare
           [listing (OK ("main" ++ nl))] eq_refl eq_refl).
Defined.

(** A checkout whose token is in the keyring only, as recent versions of
    [gh] store it, with the configuration directory given by
    [GH_CONFIG_DIR]. *)
Definition keyringOnly (hostsFile : list (string * string)) : World := {|
  env := [("GH_CONFIG_DIR", "/cfg")];
  home := OK "/home/dev";
  files := hostsFile;
  keyring := OK "gho_keyring_token";
  branchList := OK ("feature/a" ++ nl);
  remote := OK ("git@github.com:acme/tool.git" ++ nl);
  api := [];
  locked := [];
  deleted := []
|}.



(** With a [hosts.yml] that holds no token the keyring is consulted. *)
Example keyring_consulted :
  (run handler getGitHubToken (keyringOnly [("/cfg/hosts.yml", "")])).1.1
  = Returned (OK "gho_keyring_token").
Proof. reflexivity. Qed.

(** C2 fails on paths that are not an owner and a name: the three segments
    of an SSH URL, and the single segment and the empty path of an HTTPS URL
    (which the stand-in for [url.Parse] splits into host and path as
    [url.Parse] does). *)
Lemma identifier_not_checked :
  parseGitHubRepo "git@github.com:a/b/c" = OK "a/b/c"
  /\ parseGitHubRepo "https://github.com/owner" = OK "owner"
  /\ strings.SplitN2 "owner" "/" = ["owner"]
  /\ parseGitHubRepo "https://github.com/" = OK "".
Proof. repeat split; reflexivity. Qed.

(** C2, as the program has it, at an SSH URL with three segments and at an
    HTTPS URL with one. *)
Lemma segments_witness :
  (parseGitHubRepo "git@github.com:a/b/c.git" = OK "a/b/c"
   /\ strings.SplitN2 "a/b/c" "/" = ["a"; "b/c"])
  /\ parseGitHubRepo "https://github.com/owner" = OK "owner".
Proof.
  split.
  - exact (proj1 (parseGitHubRepo_spec "git@github.com:a/b/c.git")
             "a" "b/c" ".git" eq_refl (or_intror eq_refl)
             ltac:(discriminate) eq_refl ltac:(discriminate) eq_refl eq_refl).
  - exact (proj2 (parseGitHubRepo_spec "https://github.com/owner") eq_refl).
Defined.

(** C3 at the repository [name.git] of [owner]. *)
Lemma ssh_suffix_witness :
  parseGitHubRepo "git@github.com:owner/name.git.git" = OK "owner/name".
Proof.
  exact (proj1 (proj2 (ssh_url_parse "owner" "name.git"
                         ltac:(discriminate) eq_refl ltac:(discriminate) eq_refl))
           "name" eq_refl).
Defined.

(** The HTTPS form of the same URL loses the suffix once (the stand-in for
    [url.Parse] splits this URL into host and path as [url.Parse] does). *)
Example https_suffix_stripped_once :
  parseGitHubRepo "https://github.com/owner/name.git.git" = OK "owner/name.git".
Proof. reflexivity. Qed.

(** The answers of the API for [feature/a] differ in the head ref only (the
    pull request comes from a fork): the runs request the same. *)
Definition checkoutFork : World := {|
  env := env checkout; home := home checkout; files := files checkout;
  keyring := keyring checkout; branchList := branchList checkout;
  remote := remote checkout;
  api := [(pullsURL "feature/a", ok200 "[#10 from fork]");
          (pullsURL "feature/b", ok200 "[]");
          (pullsURL "feature/c", ok200 "[#11]")];
  locked := []; deleted := []
|}.

Example run_checkoutFork :
  map observe (run handler (main []) checkoutFork).2
  = map observe (run handler (main []) checkout).2
  /\ deletions (run handler (main []) checkoutFork).2 = ["feature/a"].
Proof. split; reflexivity. Qed.

(** Two simulated worlds that differ at most in the answers of the API, and
    there at most in the head ref of the first pull request of successful
    answers. *)
Definition sameWorld (w1 w2 : World) : Prop :=
  env w1 = env w2 /\ home w1 = home w2 /\ files w1 = files w2
  /\ keyring w1 = keyring w2 /\ branchList w1 = branchList w2
  /\ remote w1 = remote w2 /\ locked w1 = locked w2 /\ deleted w1 = deleted w2
  /\ Forall2 (fun a1 a2 => a1.1 = a2.1 /\ sameLookup a1.2 a2.2) (api w1) (api w2).

Lemma sameWorld_simulation : simulation handler handler sameWorld.
Proof.
  intros w1 w2 (Eenv & Ehome & Efiles & Ekey & Ebranch & Eremote & Elocked & Edel & Eapi)
         X e.
  assert (Hw : sameWorld w1 w2) by (repeat split; assumption).
  destruct e; cbn [handle handler answer agree fst snd].
  - rewrite Eenv. auto.
  - rewrite Ehome. auto.
  - rewrite Efiles. auto.
  - rewrite Ekey. auto.
  - rewrite Ebranch, Eremote. auto.
  - destruct args as [| a1 [| a2 [| branch [| ? ?]]]]; cbn; auto.
    rewrite Elocked. destruct (existsb (String.eqb branch) (locked w2)); cbn; auto.
    split; [reflexivity |]. unfold sameWorld, setDeleted. cbn.
    rewrite Edel. repeat split; assumption.
  - split; [| exact Hw]. clear -Eapi.
    induction Eapi as [| [u1 r1] [u2 r2] l1 l2 [Hu Hr] _ IH]; cbn in *.
    + left. reflexivity.
    + subst u2. destruct (String.eqb u1 url); [exact Hr | exact IH].
Qed.

Lemma checkout_sameWorld : sameWorld checkoutFork checkout.
Proof.
  unfold sameWorld. repeat split; try reflexivity. cbn [api checkoutFork checkout].
  constructor; [split; [reflexivity |] |].
  - right. unfold ok200.
    eexists _, _, (merged10 "patch-1"), (merged10 "feature/a"), [].
    repeat split; reflexivity.
  - repeat (constructor; [split; [reflexivity | left; reflexivity] |]).
    constructor.
Qed.

(** C10 in the checkout: the pull request of [feature/a] seen with the head
    ref [patch-1] or [feature/a]. *)
Lemma head_ref_witness :
  (run handler (main []) checkoutFork).1.1 = (run handler (main []) checkout).1.1
  /\ map observe (run handler (main []) checkoutFork).2
     = map observe (run handler (main []) checkout).2
  /\ deletions (run handler (main []) checkoutFork).2
     = deletions (run handler (main []) checkout).2.
Proof.
  exact (proj2 (proj2 (head_ref_never_read []) World World handler handler sameWorld
                  sameWorld_simulation checkoutFork checkout checkout_sameWorld)).
Defined.

End Examples.

(** * Further properties of the driver *)

(** The requests of a log satisfy [okEff]. *)
Definition eventOk (okEff : forall X, Eff X -> Prop) (ev : Event) : Prop :=
  match ev with
  | EvPrint _ _ => True
  | EvCall e _ => okEff _ e
  end.

Lemma always_log {W A} (h : Handler W) okExit okEff (p : Prog A) (w : W) :
  always okExit okEff p -> Forall (eventOk okEff) (run h p w).2.
Proof.
  revert w. induction p as [a | code | s text k IH | X e k IH]; intros w Hp;
    cbn [run always] in *.
  - constructor.
  - constructor.
  - specialize (IH w Hp). destruct (run h k w) as [[o w1] l]. constructor; [exact I | exact IH].
  - destruct Hp as [He Hk]. destruct (handle h e w) as [x w1].
    specialize (IH x w1 (Hk x)). destruct (run h (k x) w1) as [[o w2] l].
    constructor; [exact He | exact IH].
Qed.

(** A request sent over the network. *)
Definition isHttp (ev : Event) : bool :=
  match ev with
  | EvCall (HttpDo _ _ _) _ => true
  | _ => false
  end.

Lemma notHttp_log (log : list Event) :
  Forall (eventOk notHttp) log -> existsb isHttp log = false.
Proof.
  induction 1 as [| ev log Hev _ IH]; [reflexivity |].
  cbn [existsb]. rewrite IH, orb_false_r.
  destruct ev as [f text | X e x]; [reflexivity |].
  destruct e; try reflexivity. contradiction.
Qed.

Lemma isHttp_app (l1 l2 : list Event) :
  existsb isHttp (l1 ++ l2) = existsb isHttp l1 || existsb isHttp l2.
Proof. apply existsb_app. Qed.

(** The six lines [--help] prints. *)
Definition usageLog : list Event :=
  map printed
    ["Usage: git-tidy [--dry-run|-n]" ++ nl;
     nl;
     "Deletes local branches whose PRs have been merged." ++ nl;
     nl;
     "Options:" ++ nl;
     "  --dry-run, -n  Show what would be deleted without deleting" ++ nl].

(** What the log holds for one branch of the last loop: the request to
    delete it, with its answer, and the line printed after it. *)
Definition deletionReport (branch : string) (answer : option error) : list Event :=
  [EvCall (CmdRun "git" ["branch"; "-D"; branch]) answer;
   EvPrint Stdout
     (match answer with
      | None => "  Deleted: " ++ branch ++ nl
      | Some err => "  Error deleting " ++ branch ++ ": " ++ err ++ nl
      end)].

Section MoreDriver.

Context `{GoLib} {W : Type} (h : Handler W).

(** X1.  With [--help] or [-h] anywhere among the arguments the run prints
    the usage text and ends with status 0: it requests nothing and leaves the
    world as it was, whatever the other arguments are. *)
Theorem help_prints_usage_only (args : list string) (w : W) :
  existsb isHelpFlag args = true ->
  run h (main args) w = (Exited 0, w, usageLog).
Proof.
  intros Hhelp. unfold main. rewrite main_args_spec, Hhelp. reflexivity.
Qed.

Lemma stage_logs_notHttp (w : W) :
  existsb isHttp (run h getLocalBranches w).2 = false
  /\ existsb isHttp (run h getGitHubToken w).2 = false
  /\ existsb isHttp (run h getRepoName w).2 = false.
Proof.
  repeat split; apply notHttp_log, (always_log h (fun _ => True)).
  - unfold getLocalBranches. crunch_always.
  - unfold getGitHubToken. crunch_always.
  - unfold getRepoName. crunch_always.
Qed.

(** X2.  A run that ends with status 1 has sent nothing over the network:
    the lookups start only after the branch listing, the token and the
    repository name were obtained. *)
Theorem failed_run_sends_nothing (args : list string) (w : W) :
  exitStatus (run h (main args) w).1.1 = 1%Z ->
  existsb isHttp (run h (main args) w).2 = false.
Proof.
  destruct (existsb isHelpFlag args) eqn:Hhelp.
  { unfold main. rewrite main_args_spec, Hhelp. discriminate. }
  destruct (run_main_stages h args w Hhelp) as (found & w1 & log1 & E1 & _ & Hmain).
  pose proof (stage_logs_notHttp w) as (N1 & _ & _). rewrite E1 in N1. cbn in N1.
  destruct found as [branches [err |]].
  { assert (Hm : run h (main args) w =
                 (Exited 1, w1,
                  log1 ++ [EvPrint Stderr ("Error getting local branches: "
                                           ++ err ++ nl)])%list)
      by (destruct branches; exact Hmain).
    rewrite Hm. intros _. cbn [snd]. rewrite isHttp_app, N1. reflexivity. }
  destruct branches as [| b0 bs]; [rewrite Hmain; discriminate |].
  destruct Hmain as (token & w2 & log2 & E2 & _ & Hmain). cbv zeta in Hmain.
  pose proof (stage_logs_notHttp w1) as (_ & N2 & _). rewrite E2 in N2. cbn in N2.
  destruct token as [token | err].
  2:{ rewrite Hmain. intros _. cbn [snd]. unfold printed.
      rewrite !isHttp_app. cbn [existsb isHttp]. rewrite N1, N2. reflexivity. }
  destruct Hmain as (repo & w3 & log3 & E3 & _ & Hmain).
  pose proof (stage_logs_notHttp w2) as (_ & _ & N3). rewrite E3 in N3. cbn in N3.
  destruct repo as [repo | err].
  2:{ rewrite Hmain. intros _. cbn [snd]. unfold printed.
      rewrite !isHttp_app. cbn [existsb isHttp]. rewrite N1, N2, N3. reflexivity. }
  destruct Hmain as (toDelete & w4 & log4 & E4 & _ & Hmain).
  destruct toDelete as [| d0 ds]; [rewrite Hmain; discriminate |].
  destruct Hmain as (w5 & log5 & _ & Hmain). rewrite Hmain. discriminate.
Qed.

(** X4.  Outside a dry run the last loop asks for the deletion of every
    branch of the delete set, once and in the order of the set, and after
    each request the program prints one line and nothing else: [Deleted]
    with the branch when the request succeeded, [Error deleting] with the
    branch and the error when it failed.  A deletion that fails does not
    stop the loop, which always returns.  (What [git] itself writes while it
    runs is part of the request, not of what the program prints.) *)
Theorem deletion_failure_does_not_stop (toDelete : list string) (w : W) :
  (run h (main_delete false toDelete) w).1.1 = Returned tt
  /\ (exists answers : list (option error),
        length answers = length toDelete
        /\ (run h (main_delete false toDelete) w).2
           = concat (zip_with deletionReport toDelete answers))
  /\ deletions (run h (main_delete false toDelete) w).2 = toDelete
  /\ length (run h (main_delete false toDelete) w).2 = 2 * length toDelete
  /\ existsb isHttp (run h (main_delete false toDelete) w).2 = false.
Proof.
  revert w. induction toDelete as [| branch rest IH]; intros w.
  - repeat split; try reflexivity. exists []. split; reflexivity.
  - cbn [main_delete deleteBranch call bind run].
    destruct (handle h (CmdRun "git" ["branch"; "-D"; branch]) w) as [err w1].
    destruct (IH w1) as (Ho & (answers & Hlen & Hlog) & Hd & Hl & Hn).
    pose (answer := err).
    assert (Hreport : forall log,
              log = concat (zip_with deletionReport rest answers) ->
              (deletionReport branch answer ++ log)%list
              = concat (zip_with deletionReport (branch :: rest) (answer :: answers)))
      by (intros log ->; reflexivity).
    destruct err as [err |]; cbn [Printf bind run];
      destruct (run h (main_delete false rest) w1) as [[o w2] log];
      cbn [fst snd] in *; subst o; unfold deletions in *;
      (split; [reflexivity |]);
      (split; [exists (answer :: answers); split;
               [cbn [length]; rewrite Hlen; reflexivity
               | rewrite <- (Hreport log Hlog); reflexivity] |]);
      cbn; rewrite Hl; (repeat split; [f_equal; exact Hd | lia | exact Hn]).
Qed.

(** X5.  With a repository identifier that has no slash (the remote
    [https://github.com/owner], say) no branch is looked up or deleted: the
    loop over the branches sends nothing, reports the invalid identifier for
    every branch and returns the delete set unchanged. *)
Theorem repo_without_slash_keeps_every_branch
    (repo token : string) (branches toDelete : list string) (w : W) :
  strings.CutByte "/" repo = None ->
  run h (main_check repo token branches toDelete) w =
  (Returned toDelete, w,
   map (fun branch =>
          printed ("  " ++ branch ++ ": error checking PR: invalid repo format: "
                   ++ repo ++ nl))
       branches).
Proof.
  intros Hcut. induction branches as [| branch rest IH]; [reflexivity |].
  cbn [main_check]. unfold findPRForBranch, strings.SplitN2. rewrite Hcut.
  cbn [bind Printf run map]. rewrite IH. reflexivity.
Qed.

End MoreDriver.

(** ** The deletions of a whole run *)

Lemma deletions_wouldDelete (branches : list string) :
  deletions (map wouldDelete branches) = [].
Proof. induction branches as [| b l IH]; [reflexivity | exact IH]. Qed.

Section Pipeline.

Context `{GoLib} {W : Type} (h : Handler W).

(** The delete set a run arrives at from the state [w]: the merged branches
    among the listed ones, when the listing, the token and the repository
    name are obtained; no branch otherwise. *)
Definition plannedDeletions (w : W) : list string :=
  match run h getLocalBranches w with
  | (Returned (branches, None), w1, _) =>
      match run h getGitHubToken w1 with
      | (Returned (OK token), w2, _) =>
          match run h getRepoName w2 with
          | (Returned (OK repo), w3, _) =>
              deleteSet (lookups h repo token branches w3)
          | _ => []
          end
      | _ => []
      end
  | _ => []
  end.

(** X3.  Without a help flag, the branches a run asks to delete are those of
    the delete set, in its order, and a dry run asks for none and ends its
    log with one line for each of them. *)
Theorem main_deletes_the_delete_set (args : list string) (w : W) :
  existsb isHelpFlag args = false ->
  deletions (run h (main args) w).2
    = (if existsb isDryRunFlag args then [] else plannedDeletions w)
  /\ (existsb isDryRunFlag args = true ->
      exists pre,
        (run h (main args) w).2 = (pre ++ map wouldDelete (plannedDeletions w))%list).
Proof.
  intros Hhelp. unfold plannedDeletions.
  destruct (run_main_stages h args w Hhelp) as (found & w1 & log1 & E1 & D1 & Hmain).
  rewrite E1.
  assert (Hnone : forall o w' log,
    run h (main args) w = (o, w', log) -> deletions log = [] ->
    deletions (run h (main args) w).2
      = (if existsb isDryRunFlag args then [] else [])
    /\ (existsb isDryRunFlag args = true ->
        exists pre, (run h (main args) w).2 = (pre ++ map wouldDelete [])%list)).
  { intros o w' log -> Hd. cbn [snd map]. split.
    - rewrite Hd. destruct (existsb isDryRunFlag args); reflexivity.
    - intros _. exists log. rewrite app_nil_r. reflexivity. }
  destruct found as [branches [err |]].
  { assert (Hm : run h (main args) w =
                 (Exited 1, w1,
                  log1 ++ [EvPrint Stderr ("Error getting local branches: "
                                           ++ err ++ nl)])%list)
      by (destruct branches; exact Hmain).
    apply (Hnone _ _ _ Hm). rewrite deletions_app, D1. reflexivity. }
  destruct branches as [| b0 bs].
  { assert (Hd : deletions (log1 ++ [printed ("No branches to check (only main exists)"
                                               ++ nl)]) = [])
      by (rewrite deletions_app, D1; reflexivity).
    destruct (Hnone _ _ _ Hmain Hd) as [Hn1 Hn2].
    destruct (run h getGitHubToken w1) as [[[[token | e] | c] w2] l2];
      try (split; assumption).
    destruct (run h getRepoName w2) as [[[[repo | e] | c] w3] l3];
      split; assumption. }
  destruct Hmain as (token & w2 & log2 & E2 & D2 & Hmain). cbv zeta in Hmain.
  rewrite E2.
  destruct token as [token | err].
  2:{ apply (Hnone _ _ _ Hmain). unfold printed.
      rewrite ?deletions_app, ?deletions_print, ?deletions_nil, D1, D2. reflexivity. }
  destruct Hmain as (repo & w3 & log3 & E3 & D3 & Hmain). rewrite E3.
  destruct repo as [repo | err].
  2:{ apply (Hnone _ _ _ Hmain). unfold printed.
      rewrite ?deletions_app, ?deletions_print, ?deletions_nil, D1, D2, D3.
      reflexivity. }
  destruct Hmain as (toDelete & w4 & log4 & E4 & D4 & Hmain).
  assert (Hset : toDelete = deleteSet (lookups h repo token (b0 :: bs) w3)).
  { pose proof (run_main_check h repo token (b0 :: bs) [] w3) as Hset.
    rewrite E4 in Hset.
    exact (f_equal (fun o => match o with Returned a => a | Exited _ => [] end) Hset). }
  rewrite <- Hset. clear Hset.
  destruct toDelete as [| d0 ds].
  { apply (Hnone _ _ _ Hmain). unfold printed.
    rewrite ?deletions_app, ?deletions_print, ?deletions_nil, D1, D2, D3, D4.
    reflexivity. }
  destruct Hmain as (w5 & log5 & E5 & Hmain). rewrite Hmain. cbn [snd].
  destruct (existsb isDryRunFlag args).
  - rewrite run_main_delete_dryRun in E5. injection E5 as <- <-.
    fold wouldDelete. split.
    + unfold printed.
      rewrite ?deletions_app, ?deletions_print, D1, D2, D3, D4.
      cbn [app]. apply deletions_wouldDelete.
    + intros _.
      exists ((log1 ++ printed ("Found " ++ itoa (Z.of_nat (length (b0 :: bs)))
                                ++ " branches to check" ++ nl) :: log2)
              ++ log3 ++ log4
              ++ [printed (nl ++ "Branches to delete: "
                           ++ itoa (Z.of_nat (length (d0 :: ds))) ++ nl)])%list.
      rewrite <- !app_assoc. reflexivity.
  - destruct (run_main_delete h (d0 :: ds) w4) as (w6 & log6 & E6 & D6).
    rewrite E6 in E5. injection E5 as <- <-. split; [| discriminate].
    unfold printed. rewrite ?deletions_app, ?deletions_print, D1, D2, D3, D4.
    exact D6.
Qed.

End Pipeline.

(** ** The requests sent over the network *)

(** The headers of a lookup. *)
Definition lookupHeader (token : string) : list (string * string) :=
  [("Accept", "application/vnd.github+json");
   ("Authorization", "Bearer " ++ token);
   ("X-GitHub-Api-Version", "2022-11-28")].

(** A request over the network is a [GET] of a URL of the API of GitHub
    with the headers of a lookup, made with the token [token] when one is
    given. *)
Definition apiRequest (token : option string) (X : Type) (e : Eff X) : Prop :=
  match e with
  | HttpDo method url header =>
      method = "GET"
      /\ String.prefix "https://api.github.com/repos/" url = true
      /\ exists t, header = lookupHeader t
                   /\ match token with Some t' => t = t' | None => True end
  | _ => True
  end.

Lemma always_weaken {A} okExit (ok1 ok2 : forall X, Eff X -> Prop) (p : Prog A) :
  (forall X e, ok1 X e -> ok2 X e) ->
  always okExit ok1 p -> always okExit ok2 p.
Proof.
  intros Hw. induction p as [a | code | s text k IH | X e k IH]; cbn [always]; auto.
  intros [He Hk]. split; [apply Hw, He | intros x; apply IH, Hk].
Qed.

Section Network.

Context `{GoLib}.

Lemma findPRForBranch_apiRequest repo branch token :
  always (fun _ => True) (apiRequest (Some token)) (findPRForBranch repo branch token).
Proof.
  unfold findPRForBranch.
  destruct (strings.SplitN2 repo "/") as [| owner [| name [| ? ?]]]; try exact I.
  destruct (url_Parse _) as [u | err]; [| exact I].
  cbn [call bind always]. split.
  - split; [reflexivity |]. split; [apply prefix_append |].
    exists token. split; reflexivity.
  - intros [resp | err]; [| exact I]. cbn [bind].
    destruct (negb (StatusCode resp =? 200)%Z); [exact I |].
    destruct (BodyErr resp); [exact I |].
    destruct (json_Unmarshal (Body resp)) as [[| pr0 prs] | err]; exact I.
Qed.

Lemma main_check_apiRequest repo token branches toDelete :
  always (fun _ => True) (apiRequest (Some token))
         (main_check repo token branches toDelete).
Proof.
  revert toDelete. induction branches as [| branch rest IH]; intros toDelete.
  - exact I.
  - cbn [main_check]. apply always_bind; [apply findPRForBranch_apiRequest |].
    intros [[pr |] | err]; [destruct (nonEmpty (MergedAt pr)) |..];
      cbn [Printf bind always]; apply IH.
Qed.

Lemma notHttp_apiRequest (X : Type) (e : Eff X) : notHttp X e -> apiRequest None X e.
Proof. destruct e; cbn; auto. contradiction. Qed.

Lemma main_apiRequest (args : list string) :
  always (fun _ => True) (apiRequest None) (main args).
Proof.
  unfold main. rewrite main_args_spec.
  destruct (existsb isHelpFlag args); [exact I |].
  cbn [bind orb]. apply always_bind.
  { apply (always_weaken _ notHttp); [apply notHttp_apiRequest |].
    unfold getLocalBranches. crunch_always. }
  intros [branches [err |]]; [exact I |].
  destruct (length branches =? 0)%nat; [exact I |].
  cbn [Printf bind always]. apply always_bind.
  { apply (always_weaken _ notHttp); [apply notHttp_apiRequest |].
    unfold getGitHubToken. crunch_always. }
  intros [token | err]; [| exact I]. apply always_bind.
  { apply (always_weaken _ notHttp); [apply notHttp_apiRequest |].
    unfold getRepoName. crunch_always. }
  intros [repo | err]; [| exact I]. apply always_bind.
  { apply (always_weaken _ (apiRequest (Some token))); [| apply main_check_apiRequest].
    intros X e. destruct e; cbn; auto.
    intros (Hm & Hu & t & Ht & _). eauto. }
  intros toDelete. destruct (length toDelete =? 0)%nat; [exact I |].
  cbn [Printf bind always].
  apply (always_weaken _ notHttp); [apply notHttp_apiRequest |].
  apply main_delete_notHttp.
Qed.

(** X7.  Whatever the world answers, every request a run sends over the
    network is a [GET] of a URL that starts with
    [https://api.github.com/repos/], with the three headers of a lookup; in
    the loop over the branches the [Authorization] header carries the token
    the loop was given. *)
Theorem requests_go_to_the_api (args : list string) :
  forall W (h : Handler W) (w : W),
    Forall (eventOk (apiRequest None)) (run h (main args) w).2
    /\ (forall repo token branches toDelete,
          Forall (eventOk (apiRequest (Some token)))
                 (run h (main_check repo token branches toDelete) w).2).
Proof.
  intros W h w. split.
  - apply (always_log h (fun _ => True)), main_apiRequest.
  - intros repo token branches toDelete.
    apply (always_log h (fun _ => True)), main_check_apiRequest.
Qed.

(** *** The token is sent, never printed *)

(** [blind p1 p2]: the programs print the same text, make the same requests
    up to the headers of the requests over the network, and continue alike
    on every answer. *)
Inductive blind {A} : Prog A -> Prog A -> Prop :=
| blind_ret a : blind (Ret a) (Ret a)
| blind_exit code : blind (Exit code) (Exit code)
| blind_print f text k1 k2 : blind k1 k2 -> blind (Print f text k1) (Print f text k2)
| blind_vis X (e : Eff X) k1 k2 :
    (forall x, blind (k1 x) (k2 x)) -> blind (Vis e k1) (Vis e k2)
| blind_http method url header1 header2 k1 k2 :
    (forall x, blind (k1 x) (k2 x)) ->
    blind (Vis (HttpDo method url header1) k1) (Vis (HttpDo method url header2) k2).

Lemma blind_refl {A} (p : Prog A) : blind p p.
Proof. induction p; constructor; auto. Qed.

Lemma blind_bind {A B} (p1 p2 : Prog A) (f1 f2 : A -> Prog B) :
  blind p1 p2 -> (forall a, blind (f1 a) (f2 a)) -> blind (bind p1 f1) (bind p2 f2).
Proof.
  intros Hp Hf. induction Hp; cbn [bind]; try (constructor; auto); apply Hf.
Qed.

Lemma blind_findPRForBranch repo branch token1 token2 :
  blind (findPRForBranch repo branch token1) (findPRForBranch repo branch token2).
Proof.
  unfold findPRForBranch.
  destruct (strings.SplitN2 repo "/") as [| owner [| name [| ? ?]]];
    try apply blind_refl.
  destruct (url_Parse _) as [u | err]; [| apply blind_refl].
  cbn [call bind]. apply blind_http. intros x. apply blind_refl.
Qed.

Lemma blind_main_check repo token1 token2 branches toDelete :
  blind (main_check repo token1 branches toDelete)
        (main_check repo token2 branches toDelete).
Proof.
  revert toDelete. induction branches as [| branch rest IH]; intros toDelete.
  - constructor.
  - cbn [main_check]. apply blind_bind; [apply blind_findPRForBranch |].
    intros [[pr |] | err]; [destruct (nonEmpty (MergedAt pr)) |..];
      cbn [Printf bind]; constructor; apply IH.
Qed.

(** A logged request without the headers of a request over the network. *)
Definition redact (ev : Event) : Event :=
  match ev with
  | EvPrint f text => EvPrint f text
  | EvCall e x =>
      match e in Eff X return X -> Event with
      | HttpDo method url _ => fun x => EvCall (HttpDo method url []) x
      | e' => fun x => EvCall e' x
      end x
  end.

(** A world whose answers do not depend on the headers of a request. *)
Definition headerBlind {W} (h : Handler W) : Prop :=
  forall method url header1 header2 w,
    handle h (HttpDo method url header1) w = handle h (HttpDo method url header2) w.

Lemma blind_run {W A} (h : Handler W) (p1 p2 : Prog A) :
  headerBlind h -> blind p1 p2 ->
  forall w, (run h p1 w).1 = (run h p2 w).1
            /\ map redact (run h p1 w).2 = map redact (run h p2 w).2.
Proof.
  intros Hh Hp. induction Hp as [a | code | f text k1 k2 _ IH | X e k1 k2 _ IH
                                 | method url header1 header2 k1 k2 _ IH];
    intros w; cbn [run].
  - split; reflexivity.
  - split; reflexivity.
  - destruct (IH w) as [Ho Hl].
    destruct (run h k1 w) as [[o1 w1] l1], (run h k2 w) as [[o2 w2] l2].
    cbn in *. injection Ho as -> ->. rewrite Hl. split; reflexivity.
  - destruct (handle h e w) as [x w'].
    destruct (IH x w') as [Ho Hl].
    destruct (run h (k1 x) w') as [[o1 w1] l1], (run h (k2 x) w') as [[o2 w2] l2].
    cbn in *. injection Ho as -> ->. rewrite Hl. split; reflexivity.
  - rewrite (Hh method url header1 header2 w).
    destruct (handle h (HttpDo method url header2) w) as [x w'].
    destruct (IH x w') as [Ho Hl].
    destruct (run h (k1 x) w') as [[o1 w1] l1], (run h (k2 x) w') as [[o2 w2] l2].
    cbn in *. injection Ho as -> ->. rewrite Hl. split; reflexivity.
Qed.

(** X6.  The token reaches the world in the headers of the lookups and
    nowhere else: run with two tokens in a world whose answers do not depend
    on the headers, the loop over the branches returns the same delete set,
    leaves the same state and logs the same text and the same requests, the
    headers of the lookups apart. *)
Theorem token_only_in_headers
    (repo token1 token2 : string) (branches toDelete : list string) :
  blind (main_check repo token1 branches toDelete)
        (main_check repo token2 branches toDelete)
  /\ forall W (h : Handler W), headerBlind h ->
     forall w,
       (run h (main_check repo token1 branches toDelete) w).1
       = (run h (main_check repo token2 branches toDelete) w).1
       /\ map redact (run h (main_check repo token1 branches toDelete) w).2
          = map redact (run h (main_check repo token2 branches toDelete) w).2.
Proof.
  split; [apply blind_main_check |].
  intros W h Hh w. apply blind_run; [exact Hh | apply blind_main_check].
Qed.

End Network.

(** ** Remote URLs that are not of the SSH form *)

Lemma TrimPrefix_slash (path : string) :
  strings.TrimPrefix (String "/" path) "/" = path.
Proof.
  unfold strings.TrimPrefix, strings.HasPrefix, strings.len.
  replace (String.prefix "/" (String "/" path)) with true
    by (cbn; destruct path; reflexivity).
  cbn [String.length substring Nat.sub]. rewrite Nat.sub_0_r. apply substring_all.
Qed.

Section OtherURLs.

Context `{GoLib}.

(** X8.  For a URL without the text [git@github.com:], [url.Parse] decides.
    With the host [github.com] the identifier is the path without its
    leading slash and without one suffix [.git], so that a path that ends in
    [.git.git] keeps one [.git].  With another host, or when [url.Parse]
    rejects the URL (as it does for an SSH form on another host), the parser
    fails and the error names the URL. *)
Theorem https_url_parse (remoteURL : string) :
  containsText "git@github.com:" remoteURL = false ->
  match url_Parse remoteURL with
  | OK u =>
      (Host u = "github.com" ->
         (forall p, Path u = ("/" ++ p ++ ".git")%string ->
                    parseGitHubRepo remoteURL = OK p)
         /\ (forall p, Path u = ("/" ++ p)%string ->
                       strings.HasSuffix p ".git" = false ->
                       parseGitHubRepo remoteURL = OK p))
      /\ (Host u <> "github.com" ->
          parseGitHubRepo remoteURL
          = Err ("could not parse GitHub repo from URL: " ++ remoteURL))
  | Err _ =>
      parseGitHubRepo remoteURL
      = Err ("could not parse GitHub repo from URL: " ++ remoteURL)
  end.
Proof.
  intros Hno. apply sshPattern_needs_literal in Hno.
  unfold parseGitHubRepo. rewrite Hno.
  destruct (url_Parse remoteURL) as [u | err]; [| reflexivity]. split.
  - intros Hhost. rewrite Hhost. cbn [String.eqb Ascii.eqb Bool.eqb]. split.
    + intros p ->. change ("/" ++ p ++ ".git")%string with (String "/" (p ++ ".git")).
      rewrite TrimPrefix_slash, TrimSuffix_append. reflexivity.
    + intros p -> Hsuf. change ("/" ++ p)%string with (String "/" p).
      rewrite TrimPrefix_slash. unfold strings.TrimSuffix. rewrite Hsuf. reflexivity.
  - intros Hhost. apply String.eqb_neq in Hhost. rewrite Hhost. reflexivity.
Qed.

End OtherURLs.

(** ** Trimmed text *)

Module strings_facts.

Import strings.

Lemma string_len_ind (P : string -> Prop) :
  (forall s, (forall t, String.length t < String.length s -> P t) -> P s) ->
  forall s, P s.
Proof.
  intros Hstep.
  assert (Hn : forall n s, String.length s < n -> P s).
  { induction n as [| n IH]; intros s Hs; [lia |].
    apply Hstep. intros t Ht. apply IH. lia. }
  intros s. apply (Hn (S (String.length s))). lia.
Qed.

Section Trim.

(** The tests of a trimming scan, on one, two and three bytes. *)
Variable t1 : ascii -> bool.
Variable t2 : ascii -> ascii -> bool.
Variable t3 : ascii -> ascii -> ascii -> bool.

Fixpoint trimWith (s : string) : string :=
  match s with
  | EmptyString => s
  | String a s1 =>
      if t1 a then trimWith s1
      else match s1 with
           | EmptyString => s
           | String b s2 =>
               if t2 a b then trimWith s2
               else match s2 with
                    | EmptyString => s
                    | String c s3 => if t3 a b c then trimWith s3 else s
                    end
           end
  end.

(** The text starts with something the scan removes. *)
Definition starts (s : string) : bool :=
  match s with
  | EmptyString => false
  | String a s1 =>
      t1 a
      || match s1 with
         | EmptyString => false
         | String b s2 =>
             t2 a b
             || match s2 with
                | EmptyString => false
                | String c _ => t3 a b c
                end
         end
  end.

Lemma trimWith_fixed (s : string) : starts s = false -> trimWith s = s.
Proof.
  destruct s as [| a [| b [| c s3]]]; cbn; intros Hs; try reflexivity.
  - rewrite orb_false_r in Hs. rewrite Hs. reflexivity.
  - apply orb_false_elim in Hs as [H1 H2]. rewrite orb_false_r in H2.
    rewrite H1, H2. reflexivity.
  - apply orb_false_elim in Hs as [H1 H2]. apply orb_false_elim in H2 as [H2 H3].
    rewrite H1, H2, H3. reflexivity.
Qed.

(** The scan removes a prefix, which is not empty when the text starts with
    something to remove, and what it leaves does not start with any. *)
Lemma trimWith_spec (s : string) :
  exists pre, s = (pre ++ trimWith s)%string
              /\ (starts s = true -> pre <> ""%string)
              /\ starts (trimWith s) = false.
Proof.
  induction s as [s IH] using string_len_ind.
  assert (Hrec : forall pre0 s', pre0 <> ""%string -> s = (pre0 ++ s')%string ->
                 exists pre, s = (pre ++ trimWith s')%string
                             /\ (starts s = true -> pre <> ""%string)
                             /\ starts (trimWith s') = false).
  { intros pre0 s' Hne ->.
    destruct (IH s') as (pre & E & _ & Hs).
    { rewrite length_append. destruct pre0; [contradiction | cbn; lia]. }
    exists (pre0 ++ pre)%string. rewrite append_assoc, <- E.
    split; [reflexivity |]. split; [| exact Hs].
    intros _ E0. destruct pre0; [contradiction | discriminate]. }
  assert (Hstop : starts s = false ->
                  exists pre, s = (pre ++ trimWith s)%string
                              /\ (starts s = true -> pre <> ""%string)
                              /\ starts (trimWith s) = false).
  { intros Hs. exists ""%string. rewrite (trimWith_fixed s Hs).
    split; [reflexivity |]. split; [congruence | exact Hs]. }
  destruct (starts s) eqn:Hs; [| exact (Hstop eq_refl)]. clear Hstop.
  destruct s as [| a s1]; [discriminate |].
  cbn [trimWith]. destruct (t1 a) eqn:H1.
  { apply (Hrec (String a "") s1); [discriminate | reflexivity]. }
  destruct s1 as [| b s2]; [cbn in Hs; rewrite H1 in Hs; discriminate |].
  destruct (t2 a b) eqn:H2.
  { apply (Hrec (String a (String b "")) s2); [discriminate | reflexivity]. }
  destruct s2 as [| c s3]; [cbn in Hs; rewrite H1, H2 in Hs; discriminate |].
  destruct (t3 a b c) eqn:H3.
  { apply (Hrec (String a (String b (String c ""))) s3); [discriminate | reflexivity]. }
  cbn in Hs. rewrite H1, H2, H3 in Hs. discriminate.
Qed.

Lemma trimWith_length (s : string) : String.length (trimWith s) <= String.length s.
Proof.
  destruct (trimWith_spec s) as (pre & E & _).
  rewrite E at 2. rewrite length_append. lia.
Qed.

(** A text the scan leaves as long as it was is left as it was, and does not
    start with anything to remove. *)
Lemma trimWith_same_length (s : string) :
  String.length (trimWith s) = String.length s ->
  trimWith s = s /\ starts s = false.
Proof.
  intros Hl. destruct (trimWith_spec s) as (pre & E & Hp & _).
  assert (Hpre : pre = ""%string).
  { apply (f_equal String.length) in E. rewrite length_append in E.
    destruct pre; [reflexivity | cbn in E; lia]. }
  subst pre. split; [symmetry; exact E |].
  destruct (starts s); [exfalso; apply Hp; reflexivity | reflexivity].
Qed.

(** What a text starts with, a longer text starts with. *)
Lemma starts_append (s v : string) : starts s = true -> starts (s ++ v) = true.
Proof.
  destruct s as [| a [| b [| c s3]]]; cbn [starts]; intros Hs.
  - discriminate.
  - rewrite orb_false_r in Hs. rewrite append_cons. cbn [starts]. rewrite Hs. reflexivity.
  - rewrite !append_cons. cbn [starts].
    apply orb_true_iff in Hs as [-> | Hs]; [reflexivity |].
    rewrite orb_false_r in Hs. rewrite Hs. cbn. apply orb_true_r.
  - rewrite !append_cons. cbn [starts]. exact Hs.
Qed.

End Trim.

Definition space2r (a b : ascii) : bool := space2 b a.
Definition space3r (a b c : ascii) : bool := space3 c b a.

Lemma TrimLeftSpace_trimWith (s : string) :
  TrimLeftSpace s = trimWith asciiSpace space2 space3 s.
Proof. reflexivity. Qed.

Lemma trimLeftSpaceRev_trimWith (s : string) :
  trimLeftSpaceRev s = trimWith asciiSpace space2r space3r s.
Proof. reflexivity. Qed.

(** The text starts, or ends, with white space. *)
Definition startsSpace (s : string) : bool := starts asciiSpace space2 space3 s.
Definition endsSpace (s : string) : bool := starts asciiSpace space2r space3r (rev s).

(** *** Reversal *)

Lemma list_of_append (a b : string) :
  list_ascii_of_string (a ++ b) = (list_ascii_of_string a ++ list_ascii_of_string b)%list.
Proof.
  induction a as [| x a IH]; [reflexivity |].
  rewrite append_cons. cbn. rewrite IH. reflexivity.
Qed.

Lemma string_of_app (l1 l2 : list ascii) :
  string_of_list_ascii (l1 ++ l2)
  = (string_of_list_ascii l1 ++ string_of_list_ascii l2)%string.
Proof.
  induction l1 as [| x l1 IH]; [reflexivity |].
  cbn [app string_of_list_ascii]. rewrite IH, append_cons. reflexivity.
Qed.

Lemma length_list_of (s : string) :
  length (list_ascii_of_string s) = String.length s.
Proof. induction s as [| x s IH]; cbn; [reflexivity | rewrite IH; reflexivity]. Qed.

Lemma rev_rev (s : string) : rev (rev s) = s.
Proof.
  unfold rev. rewrite list_ascii_of_string_of_list_ascii, rev_involutive.
  apply string_of_list_ascii_of_string.
Qed.

Lemma rev_append (a b : string) : rev (a ++ b) = (rev b ++ rev a)%string.
Proof. unfold rev. rewrite list_of_append, rev_app_distr. apply string_of_app. Qed.

Lemma length_rev (s : string) : String.length (rev s) = String.length s.
Proof.
  unfold rev. rewrite <- (length_list_of (string_of_list_ascii _)).
  rewrite list_ascii_of_string_of_list_ascii, List.length_rev. apply length_list_of.
Qed.

(** *** [TrimSpace] *)

Lemma TrimLeftSpace_length (s : string) :
  String.length (TrimLeftSpace s) <= String.length s.
Proof. rewrite TrimLeftSpace_trimWith. apply trimWith_length. Qed.

Lemma TrimRightSpace_length (s : string) :
  String.length (TrimRightSpace s) <= String.length s.
Proof.
  unfold TrimRightSpace. rewrite length_rev, trimLeftSpaceRev_trimWith.
  rewrite <- (length_rev s). apply trimWith_length.
Qed.

(** A text [TrimSpace] leaves as it is neither starts nor ends with white
    space, and each of the two scans leaves it as it is. *)
Lemma TrimSpace_fixed (s : string) :
  TrimSpace s = s ->
  TrimLeftSpace s = s /\ TrimRightSpace s = s
  /\ startsSpace s = false /\ endsSpace s = false.
Proof.
  intros Hs.
  assert (Hlen : String.length (TrimLeftSpace s) = String.length s).
  { pose proof (TrimLeftSpace_length s).
    pose proof (TrimRightSpace_length (TrimLeftSpace s)) as Hr.
    unfold TrimSpace in Hs. rewrite Hs in Hr. lia. }
  rewrite TrimLeftSpace_trimWith in Hlen.
  apply trimWith_same_length in Hlen as [Hl Hst].
  rewrite <- TrimLeftSpace_trimWith in Hl.
  unfold TrimSpace in Hs. rewrite Hl in Hs.
  split; [exact Hl |]. split; [exact Hs |]. split; [exact Hst |].
  assert (Hlen : String.length (trimLeftSpaceRev (rev s)) = String.length (rev s)).
  { unfold TrimRightSpace in Hs. apply (f_equal String.length) in Hs.
    rewrite length_rev in Hs. rewrite length_rev. exact Hs. }
  rewrite trimLeftSpaceRev_trimWith in Hlen.
  apply trimWith_same_length in Hlen as [_ Hst']. exact Hst'.
Qed.

(** [TrimSpace] leaves nothing to trim. *)
Lemma TrimSpace_idempotent (s : string) : TrimSpace (TrimSpace s) = TrimSpace s.
Proof.
  unfold TrimSpace at 2 3. unfold TrimRightSpace.
  set (t := TrimLeftSpace s).
  destruct (trimWith_spec asciiSpace space2r space3r (rev t)) as (x & E & _ & Hy).
  rewrite <- trimLeftSpaceRev_trimWith in E, Hy.
  set (y := trimLeftSpaceRev (rev t)) in *.
  assert (Ht : t = (rev y ++ rev x)%string).
  { rewrite <- rev_append, <- E. symmetry. apply rev_rev. }
  assert (Hstart : startsSpace (rev y) = false).
  { destruct (startsSpace (rev y)) eqn:Hs; [| reflexivity].
    apply (starts_append _ _ _ _ (rev x)) in Hs. rewrite <- Ht in Hs.
    subst t. rewrite TrimLeftSpace_trimWith in Hs.
    destruct (trimWith_spec asciiSpace space2 space3 s) as (_ & _ & _ & Hn).
    congruence. }
  unfold TrimSpace, TrimRightSpace.
  rewrite (TrimLeftSpace_trimWith (rev y)), (trimWith_fixed _ _ _ _ Hstart).
  rewrite rev_rev, trimLeftSpaceRev_trimWith, (trimWith_fixed _ _ _ _ Hy).
  reflexivity.
Qed.

(** A line feed completes no white-space encoding. *)
Lemma space2_line_feed (a : ascii) : space2 a "010" = false.
Proof. destruct a as [[] [] [] [] [] [] [] []]; reflexivity. Qed.

Lemma space3_line_feed (a b : ascii) : space3 a b "010" = false.
Proof.
  destruct a as [[] [] [] [] [] [] [] []]; try reflexivity;
    destruct b as [[] [] [] [] [] [] [] []]; reflexivity.
Qed.

(** The line feed at the end of a trimmed text is trimmed, and nothing
    else. *)
Lemma TrimSpace_line_feed (s : string) :
  TrimSpace s = s -> TrimSpace (s ++ nl) = s.
Proof.
  intros Hs. destruct (TrimSpace_fixed s Hs) as (_ & Hr & Hst & _).
  destruct s as [| a0 s0] eqn:Es; [reflexivity |]. rewrite <- Es in *.
  assert (Hstart : startsSpace (s ++ nl) = false).
  { unfold startsSpace in *. rewrite Es in *. clear Es Hs Hr.
    destruct s0 as [| b [| c s3]]; unfold nl; rewrite ?append_cons, ?append_nil_l;
      cbn [starts] in *.
    - rewrite orb_false_r in Hst. rewrite Hst, space2_line_feed. reflexivity.
    - apply orb_false_elim in Hst as [H1 H2]. rewrite orb_false_r in H2.
      rewrite H1, H2, space3_line_feed. reflexivity.
    - exact Hst. }
  unfold TrimSpace.
  rewrite TrimLeftSpace_trimWith, (trimWith_fixed _ _ _ _ Hstart).
  unfold TrimRightSpace in *. rewrite rev_append.
  change (rev nl) with nl. unfold nl at 1. rewrite append_cons, append_nil_l.
  exact Hr.
Qed.

(** [dropCR] leaves a text that does not end with white space as it is. *)
Lemma dropCR_cases (s : string) :
  bufio.dropCR s = s \/ exists s', s = (s' ++ String "013" "")%string.
Proof.
  induction s as [| a s1 IH]; [left; reflexivity |].
  destruct s1 as [| b s2].
  - cbn. destruct (Ascii.eqb_spec a "013") as [-> | _].
    + right. exists ""%string. reflexivity.
    + left. reflexivity.
  - destruct IH as [IH | [s' E]].
    + left. cbn [bufio.dropCR] in *. rewrite IH. reflexivity.
    + right. exists (String a s'). rewrite append_cons, <- E. reflexivity.
Qed.

Lemma dropCR_fixed (s : string) : endsSpace s = false -> bufio.dropCR s = s.
Proof.
  intros He. destruct (dropCR_cases s) as [E | [s' E]]; [exact E |].
  exfalso. unfold endsSpace in He. rewrite E, rev_append in He.
  change (rev (String "013" "")) with (String "013" "") in He.
  rewrite append_cons in He. cbn [starts] in He. discriminate.
Qed.

(** *** Lines *)

(** The text that lists [names], one on each line. *)
Fixpoint joinLines (names : list string) : string :=
  match names with
  | [] => ""
  | name :: rest => name ++ nl ++ joinLines rest
  end.

Lemma rawLines_line (name rest : string) (cur : list ascii) :
  allChars anyChar name = true ->
  bufio.rawLines (name ++ String "010" rest) cur
  = string_of_list_ascii (List.rev cur ++ list_ascii_of_string name)
    :: bufio.rawLines rest [].
Proof.
  revert cur. induction name as [| a name IH]; intros cur Hn.
  - rewrite append_nil_l. cbn. rewrite app_nil_r. reflexivity.
  - cbn in Hn. apply andb_true_iff in Hn as [Ha Hn].
    unfold anyChar in Ha. apply negb_true_iff in Ha.
    rewrite append_cons. cbn [bufio.rawLines]. rewrite Ha, (IH _ Hn).
    cbn [List.rev list_ascii_of_string]. rewrite <- app_assoc. reflexivity.
Qed.

Lemma rawLines_joinLines (names : list string) :
  Forall (fun name => allChars anyChar name = true) names ->
  bufio.rawLines (joinLines names) [] = names.
Proof.
  induction 1 as [| name rest Hn _ IH]; [reflexivity |].
  cbn [joinLines]. unfold nl at 1. rewrite append_cons, append_nil_l.
  rewrite (rawLines_line _ _ _ Hn), IH. cbn [List.rev app].
  rewrite string_of_list_ascii_of_string. reflexivity.
Qed.

End strings_facts.

(** ** The listing, line by line

    What [getLocalBranches] returns is stated on the output itself: its
    lines, those of them the scanner delivers, and each of these without the
    white space around it. *)

(** The text holds no line feed. *)
Definition oneLine (s : string) : Prop :=
  allChars (fun a => negb (Ascii.eqb a "010")) s = true.

(** The lines of an output: the texts that a line feed ends, and the text
    after the last line feed when it is not empty. *)
Definition linesOf (output : string) (lines : list string) : Prop :=
  exists (ended : list string) (last : string),
    output = (strings_facts.joinLines ended ++ last)%string
    /\ Forall oneLine ended /\ oneLine last
    /\ lines = (ended ++ if nonEmpty last then [last] else [])%list.

(** A line fits the buffer of the scanner. *)
Definition fits (line : string) : Prop :=
  String.length line < bufio.MaxScanTokenSize.

(** What the scanner delivers of the lines: all of them when each fits its
    buffer; otherwise those before the first that does not, with the error
    [ErrTooLong]. *)
Definition delivered (lines kept : list string) (err : option error) : Prop :=
  (Forall fits lines /\ kept = lines /\ err = None)
  \/ (exists long rest,
        lines = (kept ++ long :: rest)%list /\ Forall fits kept
        /\ ~ fits long /\ err = Some bufio.ErrTooLong).

(** White space: code points with the property White_Space, one after the
    other, in UTF-8. *)
Inductive blank : string -> Prop :=
| blank_nil : blank ""
| blank_1 (a : ascii) (s : string) :
    strings.asciiSpace a = true -> blank s -> blank (String a s)
| blank_2 (a b : ascii) (s : string) :
    strings.space2 a b = true -> blank s -> blank (String a (String b s))
| blank_3 (a b c : ascii) (s : string) :
    strings.space3 a b c = true -> blank s ->
    blank (String a (String b (String c s))).

(** [core] is [line] without the white space around it: white space comes
    before and after it in the line, and it neither starts nor ends with
    white space. *)
Definition trimmed (line core : string) : Prop :=
  exists l r : string,
    line = (l ++ core ++ r)%string /\ blank l /\ blank r
    /\ strings_facts.startsSpace core = false
    /\ strings_facts.endsSpace core = false.

Module lines_facts.

Import strings strings_facts.

Section Removed.

Variable t1 : ascii -> bool.
Variable t2 : ascii -> ascii -> bool.
Variable t3 : ascii -> ascii -> ascii -> bool.

(** What a trimming scan removes. *)
Inductive removable : string -> Prop :=
| removable_nil : removable ""
| removable_1 (a : ascii) (s : string) :
    t1 a = true -> removable s -> removable (String a s)
| removable_2 (a b : ascii) (s : string) :
    t2 a b = true -> removable s -> removable (String a (String b s))
| removable_3 (a b c : ascii) (s : string) :
    t3 a b c = true -> removable s ->
    removable (String a (String b (String c s))).

Lemma trimWith_removes (s : string) :
  exists pre, s = (pre ++ trimWith t1 t2 t3 s)%string /\ removable pre.
Proof.
  induction s as [s IH] using string_len_ind.
  assert (Hstop : forall u : string, exists pre, u = (pre ++ u)%string /\ removable pre)
    by (intros u; exists ""%string; split; [reflexivity | constructor]).
  destruct s as [| a s1]; [apply Hstop |].
  cbn [trimWith]. destruct (t1 a) eqn:H1.
  { destruct (IH s1) as (pre & E & R); [cbn; lia |].
    exists (String a pre). rewrite append_cons, <- E.
    split; [reflexivity | constructor; assumption]. }
  destruct s1 as [| b s2]; [apply Hstop |].
  destruct (t2 a b) eqn:H2.
  { destruct (IH s2) as (pre & E & R); [cbn; lia |].
    exists (String a (String b pre)). rewrite !append_cons, <- E.
    split; [reflexivity | constructor; assumption]. }
  destruct s2 as [| c s3]; [apply Hstop |].
  destruct (t3 a b c) eqn:H3; [| apply Hstop].
  destruct (IH s3) as (pre & E & R); [cbn; lia |].
  exists (String a (String b (String c pre))). rewrite !append_cons, <- E.
  split; [reflexivity | constructor; assumption].
Qed.

End Removed.

Lemma blank_app (u v : string) : blank u -> blank v -> blank (u ++ v).
Proof.
  intros Hu Hv. induction Hu; rewrite ?append_cons, ?append_nil_l;
    [assumption | | |]; constructor; assumption.
Qed.

Lemma removable_blank (pre : string) :
  removable asciiSpace space2 space3 pre -> blank pre.
Proof. induction 1; constructor; assumption. Qed.

(** What the scan from the end removes is white space too, read first byte
    first. *)
Lemma removable_rev_blank (x : string) :
  removable asciiSpace space2r space3r x -> blank (rev x).
Proof.
  induction 1 as [| a s Ha _ IH | a b s Hab _ IH | a b c s Habc _ IH].
  - constructor.
  - change (String a s) with (String a "" ++ s)%string. rewrite rev_append.
    apply blank_app; [exact IH |]. apply blank_1; [exact Ha | constructor].
  - change (String a (String b s)) with (String a (String b "") ++ s)%string.
    rewrite rev_append. apply blank_app; [exact IH |].
    change (rev (String a (String b ""))) with (String b (String a "")).
    apply blank_2; [exact Hab | constructor].
  - change (String a (String b (String c s)))
      with (String a (String b (String c "")) ++ s)%string.
    rewrite rev_append. apply blank_app; [exact IH |].
    change (rev (String a (String b (String c ""))))
      with (String c (String b (String a ""))).
    apply blank_3; [exact Habc | constructor].
Qed.

(** [TrimSpace] removes the white space around a text, and nothing else. *)
Lemma TrimSpace_trimmed (s : string) : trimmed s (TrimSpace s).
Proof.
  destruct (trimWith_removes asciiSpace space2 space3 s) as (pre & E & Rp).
  rewrite <- TrimLeftSpace_trimWith in E.
  destruct (trimWith_removes asciiSpace space2r space3r (rev (TrimLeftSpace s)))
    as (x & Ex & Rx).
  rewrite <- trimLeftSpaceRev_trimWith in Ex.
  assert (Ht : TrimLeftSpace s = (TrimSpace s ++ rev x)%string).
  { unfold TrimSpace, TrimRightSpace. rewrite <- rev_append, <- Ex.
    symmetry. apply rev_rev. }
  destruct (TrimSpace_fixed _ (TrimSpace_idempotent s)) as (_ & _ & Hs & He).
  exists pre, (rev x). rewrite <- Ht.
  split; [exact E |]. split; [apply removable_blank; exact Rp |].
  split; [apply removable_rev_blank; exact Rx |]. split; assumption.
Qed.

Lemma trimmed_append_blank (line core v : string) :
  trimmed line core -> blank v -> trimmed (line ++ v) core.
Proof.
  intros (l & r & -> & Bl & Br & Hs & He) Bv.
  exists l, (r ++ v)%string. rewrite !append_assoc.
  split; [reflexivity |]. split; [exact Bl |].
  split; [apply blank_app; assumption |]. split; assumption.
Qed.

Lemma dropCR_append_CR (s : string) : bufio.dropCR (s ++ String "013" "") = s.
Proof.
  induction s as [| a s1 IH]; [reflexivity |].
  rewrite append_cons. destruct s1 as [| b s2]; [reflexivity |].
  rewrite append_cons in *. cbn [bufio.dropCR] in *. rewrite IH. reflexivity.
Qed.

(** The carriage return the scanner drops is white space: the token trimmed
    is the line trimmed. *)
Lemma dropCR_trimmed (line : string) :
  trimmed line (TrimSpace (bufio.dropCR line)).
Proof.
  destruct (dropCR_cases line) as [-> | [s' ->]]; [apply TrimSpace_trimmed |].
  rewrite dropCR_append_CR. apply trimmed_append_blank; [apply TrimSpace_trimmed |].
  apply blank_1; [reflexivity | constructor].
Qed.

Lemma allChars_append (p : ascii -> bool) (u v : string) :
  allChars p (u ++ v) = allChars p u && allChars p v.
Proof.
  induction u as [| a u IH]; [reflexivity |].
  rewrite append_cons. cbn [allChars]. rewrite IH. apply andb_assoc.
Qed.

Lemma nonEmpty_append_cons (u : string) (a : ascii) (v : string) :
  nonEmpty (u ++ String a v) = true.
Proof. destruct u; reflexivity. Qed.

(** The split function finds the lines of its input. *)
Lemma rawLines_linesOf (s : string) (cur : list ascii) :
  oneLine (string_of_list_ascii (List.rev cur)) ->
  linesOf (string_of_list_ascii (List.rev cur) ++ s) (bufio.rawLines s cur).
Proof.
  revert cur. induction s as [| a s' IH]; intros cur Hcur.
  - rewrite append_nil_r. exists [], (string_of_list_ascii (List.rev cur)).
    split; [reflexivity |]. split; [constructor |]. split; [exact Hcur |].
    destruct cur as [| x cur']; [reflexivity |].
    cbn [bufio.rawLines List.rev app]. rewrite string_of_app.
    cbn [string_of_list_ascii]. rewrite nonEmpty_append_cons. reflexivity.
  - cbn [bufio.rawLines]. destruct (Ascii.eqb a "010") eqn:Ha.
    + apply Ascii.eqb_eq in Ha. subst a.
      destruct (IH [] eq_refl) as (ended & last & E & Hended & Hlast & ->).
      cbn [List.rev string_of_list_ascii] in E. rewrite append_nil_l in E.
      exists (string_of_list_ascii (List.rev cur) :: ended), last.
      split; [| split; [constructor; assumption | split; [exact Hlast | reflexivity]]].
      cbn [joinLines]. unfold nl. rewrite !append_assoc, append_cons, append_nil_l.
      rewrite <- E. reflexivity.
    + assert (Hcur' : oneLine (string_of_list_ascii (List.rev (a :: cur)))).
      { cbn [List.rev]. rewrite string_of_app. unfold oneLine in *.
        rewrite allChars_append, Hcur. cbn. rewrite Ha. reflexivity. }
      specialize (IH (a :: cur) Hcur').
      cbn [List.rev] in IH. rewrite string_of_app, append_assoc in IH. exact IH.
Qed.

(** The scanner delivers the lines up to the first one that does not fit
    its buffer, each without its carriage return. *)
Lemma scanTokens_delivered (lines : list string) :
  exists kept,
    (bufio.scanTokens lines).1 = map bufio.dropCR kept
    /\ delivered lines kept (bufio.scanTokens lines).2.
Proof.
  induction lines as [| line rest IH].
  - exists []. split; [reflexivity |]. left. repeat split. constructor.
  - cbn [bufio.scanTokens].
    destruct (Nat.leb_spec bufio.MaxScanTokenSize (String.length line)) as [Hle | Hlt].
    + exists []. split; [reflexivity |]. right. exists line, rest.
      split; [reflexivity |]. split; [constructor |].
      split; [unfold fits; lia | reflexivity].
    + destruct IH as (kept & Htoks & D).
      destruct (bufio.scanTokens rest) as [toks e]. cbn [fst snd] in *.
      exists (line :: kept). split; [cbn [map]; rewrite Htoks; reflexivity |].
      destruct D as [(Hall & -> & ->) | (long & rest' & -> & Hall & Hlong & ->)].
      * left. repeat split. constructor; assumption.
      * right. exists long, rest'. split; [reflexivity |].
        split; [constructor; assumption |]. split; [exact Hlong | reflexivity].
Qed.

End lines_facts.

Section Discovery.

Context `{GoLib} {W : Type} (h : Handler W).

(** C7.  For every output of the listing command, the branches returned are
    made from its lines in their order.  The lines are the texts that a line
    feed ends and a non-empty rest after the last line feed; the scanner
    delivers all of them when each fits its buffer, and otherwise stops
    before the first that does not and reports [ErrTooLong].  Each delivered
    line is taken without the white space around it, and of these texts the
    empty ones, [main] and [master] are left out: every other one is
    returned, as it is.  The error returned is the one of the command or of
    the scanner. *)
Theorem getLocalBranches_spec (w : W) :
  match handle h (CmdOutput "git" ["branch"; "--format=%(refname:short)"]) w with
  | (OK output, w1) =>
      exists (lines kept cores : list string) (scanErr : option error),
        linesOf output lines
        /\ delivered lines kept scanErr
        /\ Forall2 trimmed kept cores
        /\ (run h getLocalBranches w).1
           = (Returned (List.filter isCandidate cores, scanErr), w1)
        /\ sublist (List.filter isCandidate cores) cores
        /\ (forall branch,
              In branch (List.filter isCandidate cores) <->
              In branch cores
              /\ branch <> "" /\ branch <> "main" /\ branch <> "master")
  | (Err err, w1) =>
      (run h getLocalBranches w).1 = (Returned ([], Some err), w1)
  end.
Proof.
  unfold getLocalBranches. cbn [call bind run].
  destruct (handle h _ w) as [[output | err] w1]; [| reflexivity].
  cbn [bind]. unfold bufio.Scan.
  destruct (lines_facts.scanTokens_delivered (bufio.rawLines output []))
    as (kept & Htoks & D).
  destruct (bufio.scanTokens (bufio.rawLines output [])) as [toks scanErr].
  cbn [fst snd] in Htoks, D. subst toks. cbn [run fst snd].
  rewrite fold_keepBranch. unfold listLocalBranches.
  exists (bufio.rawLines output []), kept,
         (map strings.TrimSpace (map bufio.dropCR kept)), scanErr.
  split; [exact (lines_facts.rawLines_linesOf output [] eq_refl) |].
  split; [exact D |]. split.
  { clear. induction kept as [| line rest IH]; constructor;
      [apply lines_facts.dropCR_trimmed | exact IH]. }
  split; [reflexivity |]. split; [apply filter_sublist |].
  intros branch. rewrite filter_In, isCandidate_spec. reflexivity.
Qed.

End Discovery.

(** ** Discovery and the remote URL, on the output of [git] *)

(** A branch name as [git] prints it: not empty, on one line, without white
    space around it, and shorter than the buffer of the scanner. *)
Definition cleanName (name : string) : Prop :=
  name <> ""
  /\ strings.TrimSpace name = name
  /\ allChars anyChar name = true
  /\ String.length name < bufio.MaxScanTokenSize.

(** Not one of the two primary branches. *)
Definition notPrimary (name : string) : bool :=
  negb (String.eqb name "main") && negb (String.eqb name "master").

Section GitOutput.

Context `{GoLib} {W : Type} (h : Handler W).

Import strings_facts.

(** X9.  No branch name the listing returns starts or ends with white
    space: trimming a returned name again changes nothing. *)
Theorem branches_are_trimmed (w : W) :
  match (run h getLocalBranches w).1.1 with
  | Returned (branches, _) =>
      Forall (fun branch => strings.TrimSpace branch = branch
                            /\ startsSpace branch = false
                            /\ endsSpace branch = false) branches
  | Exited _ => False
  end.
Proof.
  unfold getLocalBranches. cbn [call bind run].
  destruct (handle h _ w) as [[output | err] w1]; [| constructor].
  cbn [bind]. destruct (bufio.Scan output) as [lines scanErr]. cbn [run fst snd].
  rewrite fold_keepBranch. cbn [app]. unfold listLocalBranches.
  apply List.Forall_forall. intros branch Hin.
  apply filter_In in Hin as [Hin _]. apply List.in_map_iff in Hin as (line & <- & _).
  pose proof (TrimSpace_idempotent line) as Hi.
  destruct (TrimSpace_fixed _ Hi) as (_ & _ & Hs & He). auto.
Qed.

(** X10.  When [git] lists clean branch names, one on each line, the listing
    returns exactly these names, in order, without [main] and [master], and
    no error. *)
Theorem listing_round_trip (names : list string) (w w1 : W) :
  Forall cleanName names ->
  handle h (CmdOutput "git" ["branch"; "--format=%(refname:short)"]) w
  = (OK (joinLines names), w1) ->
  (run h getLocalBranches w).1
  = (Returned (List.filter notPrimary names, None), w1).
Proof.
  intros Hclean Hanswer. unfold getLocalBranches. cbn [call bind run].
  rewrite Hanswer. cbn [bind].
  assert (Hlines : bufio.rawLines (joinLines names) [] = names).
  { apply rawLines_joinLines. eapply List.Forall_impl; [| exact Hclean].
    intros name (_ & _ & Hl & _). exact Hl. }
  assert (Hscan : bufio.Scan (joinLines names) = (names, None)).
  { rewrite Scan_short_lines; rewrite Hlines.
    - f_equal. clear Hanswer Hlines.
      induction Hclean as [| name rest (_ & Ht & _ & _) _ IH]; [reflexivity |].
      cbn [map]. rewrite IH, dropCR_fixed; [reflexivity |].
      apply (TrimSpace_fixed _ Ht).
    - eapply List.Forall_impl; [| exact Hclean]. intros name (_ & _ & _ & Hs). exact Hs. }
  rewrite Hscan. cbn [run fst snd]. rewrite fold_keepBranch. cbn [app].
  f_equal. f_equal. f_equal. unfold listLocalBranches. clear Hanswer Hlines Hscan.
  induction Hclean as [| name rest (Hne & Ht & _ & _) _ IH]; [reflexivity |].
  cbn [map List.filter]. rewrite Ht, IH. unfold isCandidate, notPrimary.
  rewrite (proj2 (nonEmpty_true name) Hne). reflexivity.
Qed.

(** X11.  The line feed [git] prints after the remote URL does not reach the
    parser: for a URL without white space around it, the repository name is
    what [parseGitHubRepo] makes of the URL itself. *)
Theorem getRepoName_drops_line_feed (remoteURL : string) (w w1 : W) :
  strings.TrimSpace remoteURL = remoteURL ->
  handle h (CmdOutput "git" ["remote"; "get-url"; "origin"]) w
  = (OK (remoteURL ++ nl), w1) ->
  (run h getRepoName w).1 = (Returned (parseGitHubRepo remoteURL), w1).
Proof.
  intros Ht Hanswer. unfold getRepoName. cbn [call bind run].
  rewrite Hanswer. cbn [bind run fst snd].
  rewrite (TrimSpace_line_feed _ Ht). reflexivity.
Qed.

End GitOutput.

(** ** The evidence behind a pull request *)

Section Evidence.

Context `{GoLib} {W : Type} (h : Handler W).

(** X12.  A lookup yields a pull request only from one answer of the API
    with status 200 whose body was read without error and decodes to a
    non-empty list, and the pull request is made of the number, the state,
    the merge time and the head ref of its first element: an error status is
    never taken for a pull request, whatever its body. *)
Theorem lookup_success_evidence (repo branch token : string) (w : W)
    (pr : PullRequest) :
  (run h (findPRForBranch repo branch token) w).1.1 = Returned (OK (Some pr)) ->
  exists url resp p rest,
    (run h (findPRForBranch repo branch token) w).2
    = [EvCall (HttpDo "GET" url (lookupHeader token)) (OK resp)]
    /\ StatusCode resp = 200%Z /\ BodyErr resp = None
    /\ json_Unmarshal (Body resp) = OK (p :: rest)
    /\ pr = {| Number := api_Number p; State := api_State p;
               MergedAt := api_MergedAt p; HeadRefName := api_Head_Ref p |}.
Proof.
  unfold findPRForBranch.
  destruct (strings.SplitN2 repo "/") as [| owner [| name [| ? ?]]];
    try (cbn; discriminate).
  destruct (url_Parse _) as [u | err]; [| cbn; discriminate].
  cbn [call bind run]. unfold lookupHeader.
  destruct (handle h _ w) as [[resp | err] w1]; [| cbn; discriminate].
  cbn [bind].
  destruct (StatusCode resp =? 200)%Z eqn:Hs; [| cbn; discriminate].
  cbn [negb]. destruct (BodyErr resp) as [err |] eqn:Hb; [cbn; discriminate |].
  destruct (json_Unmarshal (Body resp)) as [[| p rest] | err] eqn:Hj;
    try (cbn; discriminate).
  cbn. intros E. injection E as <-.
  eexists _, resp, p, rest. split; [reflexivity |].
  apply Z.eqb_eq in Hs. auto.
Qed.

End Evidence.

(** * More runs in the simulated world *)

Module MoreExamples.

Import Sim Examples.

(** X1 at [-n --help x] in the checkout. *)
Lemma help_witness :
  run handler (main ["-n"; "--help"; "x"]) checkout = (Exited 0, checkout, usageLog).
Proof. exact (help_prints_usage_only handler ["-n"; "--help"; "x"] checkout eq_refl). Defined.

(** A checkout with a branch to check and no token anywhere. *)
Definition noToken : World := {|
  env := []; home := Err "$HOME is not defined"; files := [];
  keyring := Err "secret not found in keyring";
  branchList := OK ("feature/a" ++ nl);
  remote := OK ("git@github.com:acme/tool.git" ++ nl);
  api := [(pullsURL "feature/a", ok200 "[#10]")];
  locked := []; deleted := []
|}.

(** X2 in the checkout without token. *)
Lemma failed_run_witness :
  exitStatus (run handler (main []) noToken).1.1 = 1%Z
  /\ existsb isHttp (run handler (main []) noToken).2 = false.
Proof.
  split; [reflexivity |].
  exact (failed_run_sends_nothing handler [] noToken eq_refl).
Defined.

(** X3 in the checkout. *)
Lemma delete_set_witness :
  plannedDeletions handler checkout = ["feature/a"]
  /\ deletions (run handler (main []) checkout).2 = plannedDeletions handler checkout
  /\ deletions (run handler (main ["-n"]) checkout).2 = []
  /\ exists pre,
       (run handler (main ["-n"]) checkout).2
       = (pre ++ map wouldDelete (plannedDeletions handler checkout))%list.
Proof.
  split; [reflexivity |].
  split; [exact (proj1 (main_deletes_the_delete_set handler [] checkout eq_refl)) |].
  split; [exact (proj1 (main_deletes_the_delete_set handler ["-n"] checkout eq_refl)) |].
  exact (proj2 (main_deletes_the_delete_set handler ["-n"] checkout eq_refl) eq_refl).
Defined.

(** X4 with a branch that cannot be deleted: the one after it is deleted. *)
Example locked_branch_skipped :
  let w := {| env := []; home := Err ""; files := []; keyring := Err "";
              branchList := Err ""; remote := Err ""; api := [];
              locked := ["feature/a"]; deleted := [] |} in
  deletions (run handler (main_delete false ["feature/a"; "feature/b"]) w).2
    = ["feature/a"; "feature/b"]
  /\ deleted (run handler (main_delete false ["feature/a"; "feature/b"]) w).1.2
     = ["feature/b"]
  /\ exists err,
       (run handler (main_delete false ["feature/a"; "feature/b"]) w).2
       = (deletionReport "feature/a" (Some err)
          ++ deletionReport "feature/b" None)%list.
Proof. split; [| split]; [reflexivity | reflexivity | eexists; reflexivity]. Qed.

(** X5 with the identifier [owner]. *)
Lemma repo_without_slash_witness :
  run handler (main_check "owner" "ghp_token" ["feature/a"; "feature/b"] []) checkout
  = (Returned [], checkout,
     map (fun branch =>
            printed ("  " ++ branch ++ ": error checking PR: invalid repo format: "
                     ++ "owner" ++ nl))
         ["feature/a"; "feature/b"]).
Proof.
  exact (repo_without_slash_keeps_every_branch handler "owner" "ghp_token"
           ["feature/a"; "feature/b"] [] checkout eq_refl).
Defined.

Lemma handler_headerBlind : headerBlind handler.
Proof. intros method url header1 header2 w. reflexivity. Qed.

(** X6 in the checkout, with two tokens. *)
Lemma token_witness :
  (run handler (main_check "acme/tool" "ghp_one" ["feature/a"] []) checkout).1
  = (run handler (main_check "acme/tool" "ghp_two" ["feature/a"] []) checkout).1
  /\ map redact (run handler (main_check "acme/tool" "ghp_one" ["feature/a"] []) checkout).2
     = map redact (run handler (main_check "acme/tool" "ghp_two" ["feature/a"] []) checkout).2.
Proof.
  exact (proj2 (token_only_in_headers "acme/tool" "ghp_one" "ghp_two" ["feature/a"] [])
           World handler handler_headerBlind checkout).
Defined.

(** X8 at an HTTPS URL whose path ends in [.git.git]. *)
Lemma https_witness :
  parseGitHubRepo "https://github.com/owner/name.git.git" = OK "owner/name.git".
Proof.
  exact (proj1 (proj1 (https_url_parse "https://github.com/owner/name.git.git" eq_refl)
                  eq_refl)
           "owner/name.git" eq_refl).
Defined.

(** The lines of an output with a CRLF ending, an empty line and a last line
    without line feed, and the first of them trimmed. *)
Example lines_of_an_output :
  linesOf (" feature/a " ++ String "013" nl ++ "main" ++ nl ++ nl ++ "feature/b")
          [" feature/a " ++ String "013" ""; "main"; ""; "feature/b"]
  /\ trimmed (" feature/a " ++ String "013" "") "feature/a".
Proof.
  split.
  - exists [" feature/a " ++ String "013" ""; "main"; ""], "feature/b".
    split; [reflexivity |]. split; [repeat constructor |].
    split; reflexivity.
  - exists " ", (" " ++ String "013" "").
    split; [reflexivity |].
    split; [apply blank_1; [reflexivity | constructor] |].
    split; [do 2 (apply blank_1; [reflexivity |]); constructor |].
    split; reflexivity.
Qed.

Lemma checkout_names_clean :
  Forall cleanName ["feature/a"; "feature/b"; "main"; "feature/c"].
Proof.
  repeat (apply List.Forall_cons; [| try apply List.Forall_nil]);
    (split; [discriminate |]; split; [reflexivity |]; split; [reflexivity |];
     apply Nat.ltb_lt; vm_compute; reflexivity).
Qed.

(** X10 in the checkout. *)
Lemma listing_witness :
  (run handler getLocalBranches checkout).1
  = (Returned (["feature/a"; "feature/b"; "feature/c"], None), checkout).
Proof.
  exact (listing_round_trip handler ["feature/a"; "feature/b"; "main"; "feature/c"]
           checkout checkout checkout_names_clean eq_refl).
Defined.

(** X11 in the checkout. *)
Lemma repo_name_witness :
  (run handler getRepoName checkout).1 = (Returned (OK "acme/tool"), checkout).
Proof.
  exact (getRepoName_drops_line_feed handler "git@github.com:acme/tool.git"
           checkout checkout eq_refl eq_refl).
Defined.

(** X12 for [feature/a] in the checkout. *)
Lemma evidence_witness :
  exists url resp p rest,
    (run handler (findPRForBranch "acme/tool" "feature/a" "ghp_token") checkout).2
    = [EvCall (HttpDo "GET" url (lookupHeader "ghp_token")) (OK resp)]
    /\ StatusCode resp = 200%Z /\ BodyErr resp = None
    /\ json_Unmarshal (Body resp) = OK (p :: rest)
    /\ {| Number := 10; State := "closed"; MergedAt := "2024-05-01T10:00:00Z";
          HeadRefName := "feature/a" |}
       = {| Number := api_Number p; State := api_State p;
            MergedAt := api_MergedAt p; HeadRefName := api_Head_Ref p |}.
Proof.
  exact (lookup_success_evidence handler "acme/tool" "feature/a" "ghp_token" checkout
           _ eq_refl).
Defined.

End MoreExamples.
